(** * image-cleaner: the disk-pressure driven image garbage collector

    A shallow embedding of [helm-chart/images/image-cleaner/image-cleaner.py].

    Conventions of the embedding:
    - a Python float is the rational [Q] it denotes; the float operations of
      the program (the true divisions, the subtractions, the product) round
      their exact result to the nearest binary64 value, ties to even
      ([round64]); infinities and NaN are outside the model;
    - the filesystem, the docker client, the kubernetes client and the clock
      are an oracle ([World]) answering the k-th call of each kind, so the
      program is a deterministic function of its configuration and its world;
    - every collaborator call, log line and sleep is an [Event]; a computation
      returns its result, the new call counters and the events it emitted;
    - a Python exception is the [Raise] result; it propagates through [bind]
      unless the code catches it. *)

From Stdlib Require Import ZArith NArith QArith Qminmax Qround Qpower Lqa.
From Stdlib Require Import List String Bool Lia Permutation Sorted.
Import ListNotations.

Local Open Scope Z_scope.

(** ** Data model *)

(** The fields of [os.statvfs] the sampler reads (unsigned counts). *)
Record StatVfs := mkStat {
  f_blocks : N;
  f_bavail : N;
  f_files : N;
  f_favail : N
}.

(** A docker image as the client returns it: [image.id], [image.tags],
    [image.attrs['Size']]. *)
Record Image := mkImage {
  id : string;
  tags : list string;
  Size : Z
}.

(** The exceptions the program can meet. [APIError] carries
    [e.status_code], which docker-py leaves [None] without a response. *)
Inductive Exn :=
| ZeroDivisionError
| OSError
| APIError (status_code : option Z)
| ReadTimeout
| ApiException
| ValueError
| OtherError.

Inductive Result (A : Type) :=
| Ret (a : A)
| Raise (e : Exn).
Arguments Ret {A} a.
Arguments Raise {A} e.

(** ** Python arithmetic on the values used *)

(** Binary64: 53 bits of precision, least exponent -1074. *)
Definition prec : Z := 53.
Definition emin : Z := -1074.

Definition pow2 (e : Z) : Q := (2 ^ e)%Q.

(** For [q > 0], the [l] with [2^l <= q < 2^(l+1)]. *)
Definition ilog2 (q : Q) : Z :=
  let l := Z.log2 (Qnum q) - Z.log2 (Zpos (Qden q)) in
  if Qle_bool (pow2 l) q then l else l - 1.

(** The exponent of the last place of the floats around [q > 0]. *)
Definition ulp_exp (q : Q) : Z := Z.max emin (ilog2 q - (prec - 1)).

(** The nearest integer, ties to the even one. *)
Definition round_half_even (x : Q) : Z :=
  let f := Qfloor x in
  match (x - inject_Z f ?= 1 # 2)%Q with
  | Lt => f
  | Gt => f + 1
  | Eq => if Z.even f then f else f + 1
  end.

Definition round_pos (q : Q) : Q :=
  (inject_Z (round_half_even (q / pow2 (ulp_exp q))) * pow2 (ulp_exp q))%Q.

(** The binary64 value nearest to [q], ties to even. The values rounded
    here come from 64-bit counts, sizes and clock readings, far below the
    overflow threshold, which is therefore not modelled. *)
Definition round64 (q : Q) : Q :=
  match (q ?= 0)%Q with
  | Eq => 0%Q
  | Gt => round_pos q
  | Lt => (- round_pos (- q))%Q
  end.

Arguments round64 : simpl never.

(** [a / b] on ints: true division, correctly rounded;
    [ZeroDivisionError] on a zero divisor. *)
Definition truediv (a b : N) : Result Q :=
  if (b =? 0)%N then Raise ZeroDivisionError
  else Ret (round64 (inject_Z (Z.of_N a) / inject_Z (Z.of_N b)))%Q.

Definition Qltb (x y : Q) : bool := negb (Qle_bool y x).

(** [min(a, b)] keeps [a] unless [b < a]; [max(a, b)] keeps [a] unless
    [b > a]. *)
Definition py_min (a b : Q) : Q := if Qltb b a then b else a.
Definition py_max (a b : Q) : Q := if Qltb a b then b else a.

(** [int(x)] on a float truncates toward zero. *)
Definition py_int (x : Q) : Z := Z.quot (Qnum x) (Zpos (Qden x)).

(** [not x] on a list and [if s:] on a string. *)
Definition py_not_list {A} (l : list A) : bool :=
  match l with [] => true | _ => false end.
Definition truthy_string (s : string) : bool :=
  match s with EmptyString => false | _ => true end.

(** ** Usage sampler (lines 31-34, after the [os.statvfs] call) *)

Definition used_percent (stat : StatVfs) : Result Q :=
  match truediv (f_favail stat) (f_files stat) with
  | Raise e => Raise e
  | Ret inodes_avail =>
      match truediv (f_bavail stat) (f_blocks stat) with
      | Raise e => Raise e
      | Ret blocks_avail =>
          Ret (round64 (100 * round64 (1 - py_min blocks_avail inodes_avail)))%Q
      end
  end.

(** ** Image inventory *)

(** [image_key]: the pair [(not image.tags, image.attrs['Size'])]. *)
Definition image_key (image : Image) : bool * Z :=
  (py_not_list (tags image), Size image).

(** Tuple comparison [k1 < k2]: lexicographic, [False < True]. *)
Definition key_ltb (k1 k2 : bool * Z) : bool :=
  match fst k1, fst k2 with
  | false, true => true
  | true, false => false
  | _, _ => snd k1 <? snd k2
  end.

(** [list.sort(key=..., reverse=True)]: a stable sort into descending key
    order; elements with equal keys keep their original order. *)
Fixpoint insert_desc (x : Image) (l : list Image) : list Image :=
  match l with
  | [] => [x]
  | y :: l' =>
      if key_ltb (image_key x) (image_key y)
      then y :: insert_desc x l'
      else x :: l
  end.

Fixpoint sort_desc (l : list Image) : list Image :=
  match l with
  | [] => []
  | x :: l' => insert_desc x (sort_desc l')
  end.

(** ** Configuration, world and events *)

(** The environment variables of [main]. [float_parse] is the outcome of
    the three [float(...)] conversions of lines 93-95: [Ret tt] when they
    succeed, with the values [delay], [gc_low] and [gc_high], and the
    exception of the first that fails otherwise. *)
Record Config := mkConfig {
  node : option string;        (* NODE_NAME *)
  path_to_check : string;      (* PATH_TO_CHECK *)
  delay : Q;                   (* IMAGE_GC_DELAY *)
  gc_low : Q;                  (* IMAGE_GC_THRESHOLD_LOW *)
  gc_high : Q;                 (* IMAGE_GC_THRESHOLD_HIGH *)
  float_parse : Result unit
}.

(** [if node:] holds for a set, non-empty name; [node_name] is that name. *)
Definition node_name (cfg : Config) : option string :=
  match node cfg with
  | Some n => if truthy_string n then Some n else None
  | None => None
  end.

(** The collaborators: the answer to the k-th call of each kind. *)
Record World := mkWorld {
  os_statvfs : nat -> Result StatVfs;
  images_list : nat -> Result (list Image);
  images_remove : nat -> string -> Result unit;
  load_incluster_config : Result unit;
  load_kube_config : Result unit;
  read_node : Result unit;
  patch_node : nat -> Result unit;
  perf_counter : nat -> Q;
  docker_from_env : Result unit
}.

Inductive LogMsg :=
| LPruning (path : string) (high : Q)
| LUsed (used : Q)
| LNoImages
| LAvailable (n : nat)
| LCordoning (n : string)
| LRemoving (name : string) (gb : Q)
| LRemoved (name : string)
| LFailedSkipping (name : string)
| LErrorText (e : Exn)
| LNotFound (name : string)
| LTimeout (name : string)
| LUncordoning (n : string)
| LDeleted (images_deleted : Z) (seconds : Z).

Inductive Event :=
| EStatvfs (path : string)
| EListImages
| ERemove (image_id : string)
| ELoadInclusterConfig
| ELoadKubeConfig
| EReadNode (n : string)
| EPatchNode (n : string) (unschedulable : bool)
| EPerfCounter
| EDockerFromEnv
| ESleep (seconds : Q)
| ELog (msg : LogMsg).

(** Call counters, and the schedulability flag of the node object as the
    last successful patch left it. *)
Record State := mkState {
  n_statvfs : nat;
  n_list : nat;
  n_remove : nat;
  n_patch : nat;
  n_clock : nat;
  unschedulable : bool
}.

Definition initial_state : State := mkState 0 0 0 0 0 false.

(** ** The monad of the program: state, events, exceptions *)

Definition M (A : Type) : Type := State -> Result A * State * list Event.

Definition ret {A} (a : A) : M A := fun s => (Ret a, s, []).

Definition raise {A} (e : Exn) : M A := fun s => (Raise e, s, []).

Definition bind {A B} (m : M A) (f : A -> M B) : M B :=
  fun s =>
    match m s with
    | (Ret a, s1, ev1) =>
        match f a s1 with
        | (r, s2, ev2) => (r, s2, ev1 ++ ev2)
        end
    | (Raise e, s1, ev1) => (Raise e, s1, ev1)
    end.

(** [try: m  except ...: h e]: the handler sees every exception and
    re-raises the ones no [except] clause names. *)
Definition try_except {A} (m : M A) (h : Exn -> M A) : M A :=
  fun s =>
    match m s with
    | (Ret a, s1, ev1) => (Ret a, s1, ev1)
    | (Raise e, s1, ev1) =>
        match h e s1 with
        | (r, s2, ev2) => (r, s2, ev1 ++ ev2)
        end
    end.

Declare Scope prog_scope.
Delimit Scope prog_scope with prog.
Notation "x <- m1 ;; m2" := (bind m1 (fun x => m2))
  (at level 61, m1 at next level, right associativity) : prog_scope.
Notation "m1 ;; m2" := (bind m1 (fun _ => m2))
  (at level 61, right associativity) : prog_scope.

Definition emit (e : Event) : M unit := fun s => (Ret tt, s, [e]).

Definition lift {A} (r : Result A) : M A := fun s => (r, s, []).

Definition logging_info (msg : LogMsg) : M unit := emit (ELog msg).
Definition logging_warning (msg : LogMsg) : M unit := emit (ELog msg).

(** [time.sleep(seconds)] raises [ValueError] on a negative length. *)
Definition time_sleep (seconds : Q) : M unit :=
  if Qltb seconds 0 then raise ValueError else emit (ESleep seconds).

Definition result_of {A} (o : Result A * State * list Event) : Result A :=
  fst (fst o).
Definition state_of {A} (o : Result A * State * list Event) : State :=
  snd (fst o).
Definition events_of {A} (o : Result A * State * list Event) : list Event :=
  snd o.

Section Program.

Variable cfg : Config.
Variable w : World.

Local Open Scope prog_scope.

(** *** Collaborator calls *)

Definition statvfs_call : M StatVfs :=
  fun s =>
    (os_statvfs w (n_statvfs s),
     mkState (S (n_statvfs s)) (n_list s) (n_remove s) (n_patch s)
             (n_clock s) (unschedulable s),
     [EStatvfs (path_to_check cfg)]).

Definition images_list_call : M (list Image) :=
  fun s =>
    (images_list w (n_list s),
     mkState (n_statvfs s) (S (n_list s)) (n_remove s) (n_patch s)
             (n_clock s) (unschedulable s),
     [EListImages]).

Definition images_remove_call (image_id : string) : M unit :=
  fun s =>
    (images_remove w (n_remove s) image_id,
     mkState (n_statvfs s) (n_list s) (S (n_remove s)) (n_patch s)
             (n_clock s) (unschedulable s),
     [ERemove image_id]).

(** [kube.patch_node(node, {"spec": {"unschedulable": b}})]: the flag
    changes when the call succeeds. *)
Definition patch_node_call (n : string) (b : bool) : M unit :=
  fun s =>
    let r := patch_node w (n_patch s) in
    (r,
     mkState (n_statvfs s) (n_list s) (n_remove s) (S (n_patch s))
             (n_clock s)
             (match r with Ret _ => b | Raise _ => unschedulable s end),
     [EPatchNode n b]).

Definition perf_counter_call : M Q :=
  fun s =>
    (Ret (perf_counter w (n_clock s)),
     mkState (n_statvfs s) (n_list s) (n_remove s) (n_patch s)
             (S (n_clock s)) (unschedulable s),
     [EPerfCounter]).

(** *** The functions of the module *)

Definition get_used_percent : M Q :=
  stat <- statvfs_call ;;
  lift (used_percent stat).

Definition get_docker_images : M (list Image) :=
  images <- images_list_call ;;
  ret (sort_desc images).

Definition cordon (n : string) : M unit := patch_node_call n true.

Definition uncordon (n : string) : M unit := patch_node_call n false.

(** [if node: logging.info("Cordoning ..."); cordon(kube, node)] *)
Definition cordon_if_node : M unit :=
  match node_name cfg with
  | Some n => logging_info (LCordoning n) ;; cordon n
  | None => ret tt
  end.

Definition uncordon_if_node : M unit :=
  match node_name cfg with
  | Some n => logging_info (LUncordoning n) ;; uncordon n
  | None => ret tt
  end.

(** The name logged for an image: its first tag, else its id. *)
Definition image_name (image : Image) : string :=
  match tags image with
  | t :: _ => t
  | [] => id image
  end.

(** [e.status_code == n], where the status may be [None]. *)
Definition status_is (status_code : option Z) (n : Z) : bool :=
  match status_code with
  | Some z => z =? n
  | None => false
  end.

(** The [except] clauses of the removal (lines 144-156); [true] in the
    result says the [try] completed, so that its [else] clause runs. *)
Definition remove_handler (name : string) (e : Exn) : M bool :=
  match e with
  | APIError status_code =>
      if status_is status_code 409 then
        logging_info (LFailedSkipping name) ;;
        logging_info (LErrorText e) ;;
        ret false
      else if status_is status_code 404 then
        logging_info (LNotFound name) ;;
        ret false
      else raise e
  | ReadTimeout =>
      logging_warning (LTimeout name) ;;
      time_sleep (py_max (delay cfg) 30) ;;
      ret false
  | _ => raise e
  end.

(** The body of the deletion loop (lines 124-158) for the popped [image];
    returns the new value of [deleted]. *)
Definition evict_one (image : Image) (deleted : nat) : M nat :=
  cordon_if_node ;;
  let name := image_name image in
  let gb := round64 (inject_Z (Size image) / inject_Z (2 ^ 30)) in
  logging_info (LRemoving name gb) ;;
  completed <-
    try_except
      (images_remove_call (id image) ;;
       logging_info (LRemoved name) ;;
       time_sleep (delay cfg) ;;
       ret true)
      (remove_handler name) ;;
  ret (if completed then S deleted else deleted).

(** [while images and get_used_percent(path_to_check) > gc_low: ...]
    returns the remaining [images] and [deleted]. The usage is sampled only
    when [images] is non-empty, and every iteration pops one image. *)
Fixpoint evict_loop (images : list Image) (deleted : nat)
  : M (list Image * nat) :=
  match images with
  | [] => ret ([], deleted)
  | image :: rest =>
      used <- get_used_percent ;;
      if Qltb (gc_low cfg) used then
        deleted' <- evict_one image deleted ;;
        evict_loop rest deleted'
      else ret (images, deleted)
  end.

(** What a pass leaves behind: the count its summary line reports, and the
    final value of the local variable [deleted]. *)
Record PassReport := mkReport {
  images_before : nat;
  images_deleted : Z;
  deleted_counter : nat
}.

(** The [else] branch of the poll (lines 108-167). *)
Definition eviction_pass : M PassReport :=
  images <- get_docker_images ;;
  (if py_not_list images
   then logging_info LNoImages
   else logging_info (LAvailable (List.length images))) ;;
  start <- perf_counter_call ;;
  let images_before := List.length images in
  cordon_if_node ;;
  out <- evict_loop images 0 ;;
  uncordon_if_node ;;
  now <- perf_counter_call ;;
  let duration := round64 (now - start) in
  let images_deleted :=
    (Z.of_nat images_before - Z.of_nat (List.length (fst out)))%Z in
  logging_info (LDeleted images_deleted (py_int duration)) ;;
  ret (mkReport images_before images_deleted (snd out)).

(** One iteration of [while True:] (lines 102-169); [None] when the poll
    found enough space. *)
Definition poll : M (option PassReport) :=
  used <- get_used_percent ;;
  logging_info (LUsed used) ;;
  report <-
    (if Qltb used (gc_high cfg) then ret None
     else r <- eviction_pass ;; ret (Some r)) ;;
  time_sleep 60 ;;
  ret report.

(** Lines 80-99: the kubernetes client when a node is named, the numeric
    settings, the docker client (with [version='auto'] it asks the daemon
    for its version), the first image listing, the banner. *)
Definition startup : M unit :=
  match node_name cfg with
  | Some n =>
      try_except
        (emit ELoadInclusterConfig ;; lift (load_incluster_config w))
        (fun _ => emit ELoadKubeConfig ;; lift (load_kube_config w)) ;;
      emit (EReadNode n) ;;
      lift (read_node w)
  | None => ret tt
  end ;;
  lift (float_parse cfg) ;;
  emit EDockerFromEnv ;;
  lift (docker_from_env w) ;;
  _ <- get_docker_images ;;
  logging_info (LPruning (path_to_check cfg) (gc_high cfg)).

(** [polls] iterations of the endless loop; the reports of the polls so
    far, newest last. *)
Fixpoint main_loop (polls : nat) : M (list (option PassReport)) :=
  match polls with
  | O => ret []
  | S k =>
      r <- poll ;;
      rs <- main_loop k ;;
      ret (r :: rs)
  end.

Definition main (polls : nat) : M (list (option PassReport)) :=
  startup ;;
  main_loop polls.

End Program.


(** * Vocabulary of the specification *)

(** The fraction [avail / total] of the spec. *)
Definition fraction (avail total : N) : Q :=
  (inject_Z (Z.of_N avail) / inject_Z (Z.of_N total))%Q.

(** [a] may stand before [b] in the sorted list: the key of [a] is not
    below the key of [b]. *)
Definition not_below (a b : Image) : Prop :=
  key_ltb (image_key a) (image_key b) = false.

(** The order of the spec: no tagged image before an untagged one, and
    within a class no smaller image before a larger one. *)
Definition deletion_order (a b : Image) : Prop :=
  (tags b = [] -> tags a = []) /\
  ((tags a = [] <-> tags b = []) -> Size b <= Size a).

Definition unsorted_example : list Image :=
  [mkImage "i1" [] 5; mkImage "i2" ["a"%string] 100; mkImage "i3" [] 50].

Definition sorted_example : list Image :=
  [mkImage "i3" [] 50; mkImage "i1" [] 5; mkImage "i2" ["a"%string] 100].


(** The orchestrator accepts every node patch. *)
Definition kube_ok (w : World) : Prop :=
  forall k, patch_node w k = Ret tt.

(** The orchestrator can be configured and reached at startup, and accepts
    every node patch. *)
Definition kube_reachable (w : World) : Prop :=
  (load_incluster_config w = Ret tt \/ load_kube_config w = Ret tt) /\
  read_node w = Ret tt /\
  kube_ok w.

(** The error taxonomy of a deletion attempt: Conflict (409), NotFound
    (404) and Timeout are recoverable, every other exception is fatal. *)
Definition Conflict : Exn := APIError (Some 409).
Definition NotFound : Exn := APIError (Some 404).
Definition Timeout : Exn := ReadTimeout.

Definition fatal (e : Exn) : Prop :=
  e <> Conflict /\ e <> NotFound /\ e <> Timeout.

(** The events of [cordon_if_node] and [uncordon_if_node] when the patch
    is accepted. *)
Definition cordon_events (cfg : Config) : list Event :=
  match node_name cfg with
  | Some n => [ELog (LCordoning n); EPatchNode n true]
  | None => []
  end.

Definition uncordon_events (cfg : Config) : list Event :=
  match node_name cfg with
  | Some n => [ELog (LUncordoning n); EPatchNode n false]
  | None => []
  end.

(** The state after [k] patches that set the flag to [b], when a node is
    configured; the same state otherwise. *)
Definition patched (cfg : Config) (k : nat) (b : bool) (s : State) : State :=
  match node_name cfg with
  | Some _ =>
      mkState (n_statvfs s) (n_list s) (n_remove s) (k + n_patch s)
              (n_clock s) b
  | None => s
  end.

(** The events of one loop iteration up to and including the removal call:
    the sample, the re-asserted cordon, the log line, the call. *)
Definition attempt_events (cfg : Config) (image : Image) : list Event :=
  [EStatvfs (path_to_check cfg)] ++ cordon_events cfg ++
  [ELog (LRemoving (image_name image)
                   (round64 (inject_Z (Size image) / inject_Z (2 ^ 30))));
   ERemove (id image)].

(** The state after one loop iteration: one more sample, one more removal
    call, the cordon re-asserted. *)
Definition after_attempt (cfg : Config) (s : State) : State :=
  patched cfg 1 true
    (mkState (S (n_statvfs s)) (n_list s) (S (n_remove s)) (n_patch s)
             (n_clock s) (unschedulable s)).

(** An outcome with [ev] emitted before it. *)
Definition prepend {A} (ev : list Event) (o : Result A * State * list Event)
  : Result A * State * list Event :=
  (result_of o, state_of o, ev ++ events_of o).

(** The orchestrator's part of a trace: its calls and the log lines that
    announce them. *)
Definition is_kube_event (e : Event) : bool :=
  match e with
  | ELoadInclusterConfig | ELoadKubeConfig | EReadNode _ | EPatchNode _ _ =>
      true
  | ELog (LCordoning _) | ELog (LUncordoning _) => true
  | _ => false
  end.

Definition erase_kube (ev : list Event) : list Event :=
  filter (fun e => negb (is_kube_event e)) ev.

Definition set_node (cfg : Config) (n : option string) : Config :=
  mkConfig n (path_to_check cfg) (delay cfg) (gc_low cfg) (gc_high cfg)
           (float_parse cfg).

(** Two states with the same runtime, filesystem and clock counters. *)
Definition agree (s0 s1 : State) : Prop :=
  n_statvfs s0 = n_statvfs s1 /\ n_list s0 = n_list s1 /\
  n_remove s0 = n_remove s1 /\ n_clock s0 = n_clock s1.

(** * Scenarios *)

(** A filesystem [p] percent full (blocks), with all inodes available. *)
Definition stat_used (p : N) : StatVfs := mkStat 100 (100 - p) 100 100.

Definition cfg_node : Config :=
  mkConfig (Some "node-1"%string) "/var/lib/docker" 1 60 80 (Ret tt).

Definition cfg_no_node : Config := set_node cfg_node None.

Definition image_a : Image := mkImage "sha256:a" [] 50.
Definition image_b : Image := mkImage "sha256:b" ["jupyter/base:1"%string] 30.

(** Usage stays at 90%, the runtime lists [images] and answers every
    removal with [removal], the orchestrator accepts everything. *)
Definition steady_world (images : list Image) (removal : Result unit)
  : World :=
  mkWorld (fun _ => Ret (stat_used 90)) (fun _ => Ret images)
          (fun _ _ => removal) (Ret tt) (Ret tt) (Ret tt)
          (fun _ => Ret tt) (fun k => inject_Z (Z.of_nat k))
          (Ret tt).

(** Usage 90% at the poll, then exactly the low threshold. *)
Definition at_low_world : World :=
  mkWorld (fun k => match k with O => Ret (stat_used 90)
                            | _ => Ret (stat_used 60) end)
          (fun _ => Ret [image_a; image_b])
          (fun _ _ => Ret tt) (Ret tt) (Ret tt) (Ret tt)
          (fun _ => Ret tt) (fun k => inject_Z (Z.of_nat k))
          (Ret tt).

(** Every sample of the filesystem yields a percentage. *)
Definition sampler_ok (w : World) : Prop :=
  forall k, exists stat used,
    os_statvfs w k = Ret stat /\ used_percent stat = Ret used.

(** The runtime answers removals with success or a recoverable failure. *)
Definition removals_recoverable (w : World) : Prop :=
  forall k i e, images_remove w k i = Raise e ->
    e = Conflict \/ e = NotFound \/ e = Timeout.

(** The state after a sample. *)
Definition sampled (s : State) : State :=
  mkState (S (n_statvfs s)) (n_list s) (n_remove s) (n_patch s)
          (n_clock s) (unschedulable s).

(** The events of a pass before its deletion loop: the listing, the log
    line on the inventory, the clock reading, the cordon. *)
Definition pass_prologue (cfg : Config) (images : list Image) : list Event :=
  [EListImages;
   ELog (if py_not_list images then LNoImages
         else LAvailable (List.length images));
   EPerfCounter] ++ cordon_events cfg.

(** The state in which the deletion loop of a pass starts. *)
Definition pass_loop_state (cfg : Config) (s : State) : State :=
  patched cfg 1 true
    (mkState (n_statvfs s) (S (n_list s)) (n_remove s) (n_patch s)
             (S (n_clock s)) (unschedulable s)).

(** The state and the events of a pass after its deletion loop ended in
    state [s2] with [remaining] candidates: the uncordon, the clock reading,
    the summary line. *)
Definition pass_final_state (cfg : Config) (s2 : State) : State :=
  match patched cfg 1 false s2 with
  | mkState a b c d e f => mkState a b c d (S e) f
  end.

Definition pass_summary (w : World) (s s2 : State) (before : nat)
    (remaining : list Image) : LogMsg :=
  LDeleted (Z.of_nat before - Z.of_nat (List.length remaining))
           (py_int (round64 (perf_counter w (n_clock s2) -
                             perf_counter w (n_clock s)))).

Definition pass_epilogue (cfg : Config) (w : World) (s s2 : State)
    (before : nat) (remaining : list Image) : list Event :=
  uncordon_events cfg ++
  [EPerfCounter; ELog (pass_summary w s s2 before remaining)].

(** Counting in a trace: the removal calls, and the removals the engine
    logged as done. *)
Definition is_remove_call (e : Event) : bool :=
  match e with ERemove _ => true | _ => false end.

Definition is_removed_log (e : Event) : bool :=
  match e with ELog (LRemoved _) => true | _ => false end.

Definition removal_calls (ev : list Event) : nat :=
  List.length (filter is_remove_call ev).

Definition removals_confirmed (ev : list Event) : nat :=
  List.length (filter is_removed_log ev).

(** A run without a node against a run with one: the same result, the same
    runtime, filesystem and clock counters, and the same events once the
    orchestrator's part is erased from the second. *)
Definition sim {A} (o0 o1 : Result A * State * list Event) : Prop :=
  result_of o0 = result_of o1 /\
  agree (state_of o0) (state_of o1) /\
  events_of o0 = erase_kube (events_of o1).

Definition msim {A} (m0 m1 : M A) : Prop :=
  forall s0 s1, agree s0 s1 -> sim (m0 s0) (m1 s1).

(** * Further vocabulary *)

(** The usage by blocks alone and by inodes alone, in percent, evaluated
    in binary64 as the sampler evaluates its formula. *)
Definition blocks_used (stat : StatVfs) : Q :=
  round64 (100 * round64 (1 - round64 (fraction (f_bavail stat)
                                                (f_blocks stat)))).

Definition inodes_used (stat : StatVfs) : Q :=
  round64 (100 * round64 (1 - round64 (fraction (f_favail stat)
                                                (f_files stat)))).

(** Equality of two sort keys. *)
Definition key_eqb (k1 k2 : bool * Z) : bool :=
  Bool.eqb (fst k1) (fst k2) && (snd k1 =? snd k2).

(** The images of a list that carry the key [k], in their order. *)
Definition with_key (k : bool * Z) (l : list Image) : list Image :=
  filter (fun image => key_eqb (image_key image) k) l.

Definition twin_x : Image := mkImage "sha256:x" [] 7.
Definition twin_y : Image := mkImage "sha256:y" [] 7.

(** What follows the removal call in an iteration that ends the loop with
    an exception: nothing after a fatal removal error; the log line of the
    removal when the sleep that follows it refuses a negative delay. *)
Inductive abort_tail (cfg : Config) (image : Image)
  : Exn -> list Event -> Prop :=
| abort_fatal (e : Exn) : fatal e -> abort_tail cfg image e []
| abort_sleep :
    (delay cfg < 0)%Q ->
    abort_tail cfg image ValueError [ELog (LRemoved (image_name image))].

(** What follows the removal call in an iteration that goes on, with the
    value of [deleted] before and after: success, Conflict, NotFound,
    Timeout. *)
Inductive step_tail (cfg : Config) (image : Image)
  : nat -> nat -> list Event -> Prop :=
| tail_success (d : nat) :
    (0 <= delay cfg)%Q ->
    step_tail cfg image d (S d)
      [ELog (LRemoved (image_name image)); ESleep (delay cfg)]
| tail_conflict (d : nat) :
    step_tail cfg image d d
      [ELog (LFailedSkipping (image_name image)); ELog (LErrorText Conflict)]
| tail_not_found (d : nat) :
    step_tail cfg image d d [ELog (LNotFound (image_name image))]
| tail_timeout (d : nat) :
    step_tail cfg image d d
      [ELog (LTimeout (image_name image)); ESleep (py_max (delay cfg) 30)].

(** The ids passed to the removal calls of a trace, in order. *)
Fixpoint removed_ids (ev : list Event) : list string :=
  match ev with
  | [] => []
  | ERemove i :: ev' => i :: removed_ids ev'
  | _ :: ev' => removed_ids ev'
  end.

(** Counting the samples and the node patches of a trace. *)
Definition is_sample (e : Event) : bool :=
  match e with EStatvfs _ => true | _ => false end.

Definition is_patch (b : bool) (e : Event) : bool :=
  match e with EPatchNode _ b' => Bool.eqb b b' | _ => false end.

Definition sample_calls (ev : list Event) : nat :=
  List.length (filter is_sample ev).

Definition cordon_calls (ev : list Event) : nat :=
  List.length (filter (is_patch true) ev).

Definition uncordon_calls (ev : list Event) : nat :=
  List.length (filter (is_patch false) ev).

(** The events of a poll that finds enough space. *)
Definition is_idle_event (e : Event) : bool :=
  match e with
  | EStatvfs _ | ELog (LUsed _) | ESleep _ => true
  | _ => false
  end.

(** The value of a sample: the stat call, then the arithmetic. *)
Definition sample_at (w : World) (k : nat) : Result Q :=
  match os_statvfs w k with
  | Ret stat => used_percent stat
  | Raise e => Raise e
  end.

(** The state after [polls] more samples and nothing else. *)
Definition sampled_times (polls : nat) (s : State) : State :=
  mkState (polls + n_statvfs s) (n_list s) (n_remove s) (n_patch s)
          (n_clock s) (unschedulable s).

(** A filesystem without inodes, as some filesystems report themselves. *)
Definition no_inodes_world : World :=
  mkWorld (fun _ => Ret (mkStat 100 40 0 0)) (fun _ => Ret [image_a])
          (fun _ _ => Ret tt) (Ret tt) (Ret tt) (Ret tt)
          (fun _ => Ret tt) (fun k => inject_Z (Z.of_nat k))
          (Ret tt).

(** Usage stays at 50%, below the high threshold of the scenarios. *)
Definition idle_world : World :=
  mkWorld (fun _ => Ret (stat_used 50)) (fun _ => Ret [image_a])
          (fun _ _ => Ret tt) (Ret tt) (Ret tt) (Ret tt)
          (fun _ => Ret tt) (fun k => inject_Z (Z.of_nat k))
          (Ret tt).

(** The in-cluster configuration is missing; [read] answers the node read
    and [patch] every node patch. *)
Definition outside_cluster_world (read patch : Result unit) : World :=
  mkWorld (fun _ => Ret (stat_used 90)) (fun _ => Ret [image_a])
          (fun _ _ => Ret tt) (Raise OtherError) (Ret tt) read
          (fun _ => patch) (fun k => inject_Z (Z.of_nat k))
          (Ret tt).

(** What follows a removal call that returned: the log line, then the
    sleep, which refuses a negative delay. *)
Definition after_removed (cfg : Config) (image : Image) (deleted : nat)
    (s1 : State) : Result nat * State * list Event :=
  prepend [ELog (LRemoved (image_name image))]
    (if Qltb (delay cfg) 0 then (Raise ValueError, s1, [])
     else (Ret (S deleted), s1, [ESleep (delay cfg)])).

(** The value the sampler returns on a stat result with non-zero totals. *)
Definition float_used (stat : StatVfs) : Q :=
  round64 (100 * round64 (1 - py_min
                                (round64 (fraction (f_bavail stat)
                                                   (f_blocks stat)))
                                (round64 (fraction (f_favail stat)
                                                   (f_files stat))))).

(** Usage 90% at the poll, then 70%: between the thresholds 60 and 80. *)
Definition band_world : World :=
  mkWorld (fun k => match k with O => Ret (stat_used 90)
                            | _ => Ret (stat_used 70) end)
          (fun _ => Ret [image_a; image_b])
          (fun _ _ => Ret tt) (Ret tt) (Ret tt) (Ret tt)
          (fun _ => Ret tt) (fun k => inject_Z (Z.of_nat k))
          (Ret tt).

(** Forty-one percent of the blocks available: the exact usage is 59. *)
Definition stat_41 : StatVfs := mkStat 100 41 100 100.

(** A configuration with a negative inter-deletion delay. *)
Definition cfg_negative_delay : Config :=
  mkConfig (Some "node-1"%string) "/var/lib/docker" (-1) 60 80 (Ret tt).
(** * Properties *)

(** ** Comparisons on [Q] *)

Lemma Qltb_lt (x y : Q) : Qltb x y = true <-> (x < y)%Q.
Proof.
  unfold Qltb. rewrite negb_true_iff.
  split; intro H.
  - apply Qnot_le_lt. intro Hle. apply Qle_bool_iff in Hle. congruence.
  - destruct (Qle_bool y x) eqn:E; trivial.
    apply Qle_bool_iff in E. exfalso. exact (Qlt_not_le _ _ H E).
Qed.

Lemma Qltb_ge (x y : Q) : Qltb x y = false <-> (y <= x)%Q.
Proof.
  unfold Qltb. rewrite negb_false_iff. apply Qle_bool_iff.
Qed.

Lemma py_min_Qmin (a b : Q) : (py_min a b == Qmin a b)%Q.
Proof.
  unfold py_min. destruct (Qltb b a) eqn:E.
  - apply Qltb_lt in E. symmetry. apply Q.min_r. now apply Qlt_le_weak.
  - apply Qltb_ge in E. symmetry. now apply Q.min_l.
Qed.

Lemma py_max_Qmax (a b : Q) : (py_max a b == Qmax a b)%Q.
Proof.
  unfold py_max. destruct (Qltb a b) eqn:E.
  - apply Qltb_lt in E. symmetry. apply Q.max_r. now apply Qlt_le_weak.
  - apply Qltb_ge in E. symmetry. now apply Q.max_l.
Qed.

Lemma Ret_inj {A} (a b : A) : Ret a = Ret b -> a = b.
Proof. intros H. now injection H. Qed.

(** ** Rounding to binary64 *)

Lemma pow2_pos (e : Z) : (0 < pow2 e)%Q.
Proof. apply Qpower_0_lt. reflexivity. Qed.

Lemma pow2_add (a b : Z) : (pow2 (a + b) == pow2 a * pow2 b)%Q.
Proof. apply Qpower_plus. discriminate. Qed.

Lemma pow2_le (a b : Z) : a <= b -> (pow2 a <= pow2 b)%Q.
Proof. intros H. apply Qpower_le_compat_l; [exact H|discriminate]. Qed.

Lemma pow2_lt_inv (a b : Z) : (pow2 a < pow2 b)%Q -> a < b.
Proof. intros H. apply (Qpower_lt_compat_l_inv 2); [exact H|reflexivity]. Qed.

Lemma pow2_inject (k : Z) : 0 <= k -> (pow2 k == inject_Z (2 ^ k))%Q.
Proof. intros H. unfold pow2. now rewrite Zpower_Qpower. Qed.

Lemma Qdiv_le_iff (x c d : Q) : (0 < d)%Q -> (c <= x / d <-> c * d <= x)%Q.
Proof.
  intros Hd. split; intros H.
  - apply (Qmult_le_r _ _ (/ d)); [now apply Qinv_lt_0_compat|].
    rewrite <- Qmult_assoc, Qmult_inv_r, Qmult_1_r; [exact H|].
    intro E. rewrite E in Hd. discriminate.
  - now apply Qle_shift_div_l.
Qed.

Lemma Qdiv_lt_iff (x c d : Q) : (0 < d)%Q -> (x / d < c <-> x < c * d)%Q.
Proof.
  intros Hd. split; intros H.
  - apply (Qmult_lt_r _ _ (/ d)); [now apply Qinv_lt_0_compat|].
    rewrite <- Qmult_assoc, Qmult_inv_r, Qmult_1_r; [exact H|].
    intro E. rewrite E in Hd. discriminate.
  - now apply Qlt_shift_div_r.
Qed.

Lemma ilog2_spec (q : Q) :
  (0 < q)%Q -> (pow2 (ilog2 q) <= q < pow2 (ilog2 q + 1))%Q.
Proof.
  intros Hq. destruct q as [n d].
  assert (Hn : 0 < n) by (unfold Qlt in Hq; simpl in Hq; lia).
  pose proof (Z.log2_spec n Hn) as [Hn1 Hn2].
  pose proof (Z.log2_spec (Zpos d) (Pos2Z.is_pos d)) as [Hd1 Hd2].
  pose proof (Z.log2_nonneg n) as Hln.
  pose proof (Z.log2_nonneg (Zpos d)) as Hld.
  assert (Hqd : (n # d == inject_Z n / inject_Z (Zpos d))%Q)
    by apply Qmake_Qdiv.
  assert (Hdpos : (0 < inject_Z (Zpos d))%Q) by reflexivity.
  set (ln := Z.log2 n) in *. set (ld := Z.log2 (Zpos d)) in *.
  assert (Hlow : (pow2 (ln - ld - 1) <= n # d)%Q).
  { rewrite Hqd. apply Qdiv_le_iff; [exact Hdpos|].
    apply Qle_trans with (pow2 (ln - ld - 1) * pow2 (ld + 1))%Q.
    - apply Qmult_le_l; [apply pow2_pos|].
      rewrite pow2_inject by lia. rewrite <- Zle_Qle. lia.
    - rewrite <- pow2_add. replace (ln - ld - 1 + (ld + 1)) with ln by lia.
      rewrite pow2_inject by lia. now rewrite <- Zle_Qle. }
  assert (Hhigh : (n # d < pow2 (ln - ld + 1))%Q).
  { rewrite Hqd. apply Qdiv_lt_iff; [exact Hdpos|].
    apply Qlt_le_trans with (pow2 (ln - ld + 1) * pow2 ld)%Q.
    - rewrite <- pow2_add. replace (ln - ld + 1 + ld) with (ln + 1) by lia.
      rewrite pow2_inject by lia. rewrite <- Zlt_Qlt. lia.
    - apply Qmult_le_l; [apply pow2_pos|].
      rewrite pow2_inject by lia. now rewrite <- Zle_Qle. }
  unfold ilog2. cbn [Qnum Qden]. fold ln ld.
  destruct (Qle_bool (pow2 (ln - ld)) (n # d)) eqn:E.
  - apply Qle_bool_iff in E. split; [exact E|exact Hhigh].
  - split; [exact Hlow|].
    replace (ln - ld - 1 + 1) with (ln - ld) by lia.
    apply Qnot_le_lt. intro H. apply Qle_bool_iff in H. congruence.
Qed.

Lemma ilog2_mono (x y : Q) :
  (0 < x)%Q -> (x <= y)%Q -> ilog2 x <= ilog2 y.
Proof.
  intros Hx Hxy.
  assert (Hy : (0 < y)%Q) by (eapply Qlt_le_trans; eassumption).
  destruct (ilog2_spec x Hx) as [Hx1 _].
  destruct (ilog2_spec y Hy) as [_ Hy2].
  assert (H : ilog2 x < ilog2 y + 1).
  { apply pow2_lt_inv. eapply Qle_lt_trans; [exact Hx1|].
    eapply Qle_lt_trans; eassumption. }
  lia.
Qed.

Lemma rhe_bounds (x : Q) :
  Qfloor x <= round_half_even x <= Qfloor x + 1.
Proof.
  unfold round_half_even.
  destruct (x - inject_Z (Qfloor x) ?= 1 # 2)%Q; [|lia|lia].
  destruct (Z.even (Qfloor x)); lia.
Qed.

Lemma rhe_mono (x y : Q) :
  (x <= y)%Q -> round_half_even x <= round_half_even y.
Proof.
  intros Hxy.
  pose proof (Qfloor_resp_le _ _ Hxy) as Hf.
  pose proof (rhe_bounds x) as Hbx. pose proof (rhe_bounds y) as Hby.
  destruct (Z.eq_dec (Qfloor x) (Qfloor y)) as [E|NE]; [|lia].
  unfold round_half_even in *. rewrite <- E in *.
  set (f := Qfloor x) in *.
  destruct (Qcompare_spec (x - inject_Z f) (1 # 2)) as [Hx|Hx|Hx];
    destruct (Qcompare_spec (y - inject_Z f) (1 # 2)) as [Hy|Hy|Hy];
    try destruct (Z.even f); try lia; exfalso; lra.
Qed.

Lemma rhe_inject (k : Z) : round_half_even (inject_Z k) = k.
Proof.
  unfold round_half_even. rewrite Qfloor_Z.
  assert (H : (inject_Z k - inject_Z k ?= 1 # 2)%Q = Lt).
  { apply Qlt_alt. setoid_replace (inject_Z k - inject_Z k)%Q with 0%Q by ring.
    reflexivity. }
  now rewrite H.
Qed.

Lemma ulp_exp_spec (q : Q) :
  (0 < q)%Q ->
  (q / pow2 (ulp_exp q) <= inject_Z (2 ^ prec))%Q /\
  (emin < ulp_exp q ->
   (inject_Z (2 ^ (prec - 1)) <= q / pow2 (ulp_exp q))%Q).
Proof.
  intros Hq. destruct (ilog2_spec q Hq) as [H1 H2]. split.
  - apply Qlt_le_weak. apply Qdiv_lt_iff; [apply pow2_pos|].
    rewrite <- (pow2_inject prec) by (unfold prec; lia). rewrite <- pow2_add.
    eapply Qlt_le_trans; [exact H2|]. apply pow2_le.
    unfold ulp_exp. lia.
  - intros He. apply Qdiv_le_iff; [apply pow2_pos|].
    rewrite <- (pow2_inject (prec - 1)) by (unfold prec; lia).
    rewrite <- pow2_add.
    eapply Qle_trans; [|exact H1]. apply pow2_le.
    unfold ulp_exp in *. lia.
Qed.

Lemma round_pos_nonneg (q : Q) : (0 < q)%Q -> (0 <= round_pos q)%Q.
Proof.
  intros Hq. unfold round_pos.
  apply Qmult_le_0_compat; [|apply Qlt_le_weak, pow2_pos].
  change 0%Q with (inject_Z 0). rewrite <- Zle_Qle.
  etransitivity; [|apply rhe_bounds].
  change 0 with (Qfloor 0). apply Qfloor_resp_le.
  apply Qlt_le_weak. apply Qlt_shift_div_l; [apply pow2_pos|]. lra.
Qed.

Lemma round_pos_mono (x y : Q) :
  (0 < x)%Q -> (x <= y)%Q -> (round_pos x <= round_pos y)%Q.
Proof.
  intros Hx Hxy.
  assert (Hy : (0 < y)%Q) by (eapply Qlt_le_trans; eassumption).
  pose proof (ilog2_mono x y Hx Hxy) as Hl.
  assert (He : ulp_exp x <= ulp_exp y) by (unfold ulp_exp; lia).
  unfold round_pos.
  destruct (Z.eq_dec (ulp_exp x) (ulp_exp y)) as [E|NE].
  - rewrite <- E. apply Qmult_le_r; [apply pow2_pos|].
    rewrite <- Zle_Qle. apply rhe_mono.
    apply Qmult_le_r; [apply Qinv_lt_0_compat, pow2_pos|exact Hxy].
  - destruct (ulp_exp_spec x Hx) as [Hxu _].
    destruct (ulp_exp_spec y Hy) as [_ Hyl].
    assert (Hex : emin <= ulp_exp x) by (unfold ulp_exp; lia).
    specialize (Hyl ltac:(lia)).
    apply Qle_trans with (pow2 (prec + ulp_exp x)).
    + rewrite pow2_add, (pow2_inject prec) by (unfold prec; lia).
      apply Qmult_le_r; [apply pow2_pos|].
      rewrite <- Zle_Qle. rewrite <- (rhe_inject (2 ^ prec)).
      now apply rhe_mono.
    + apply Qle_trans with (pow2 (prec - 1 + ulp_exp y)).
      * apply pow2_le. lia.
      * rewrite pow2_add, (pow2_inject (prec - 1)) by (unfold prec; lia).
        apply Qmult_le_r; [apply pow2_pos|].
        rewrite <- Zle_Qle. rewrite <- (rhe_inject (2 ^ (prec - 1))).
        now apply rhe_mono.
Qed.

Lemma round64_mono (x y : Q) : (x <= y)%Q -> (round64 x <= round64 y)%Q.
Proof.
  intros Hxy. unfold round64.
  destruct (Qcompare_spec x 0) as [Hx|Hx|Hx];
    destruct (Qcompare_spec y 0) as [Hy|Hy|Hy]; try lra.
  - pose proof (round_pos_nonneg y Hy). lra.
  - assert (H : (0 < - x)%Q) by lra.
    pose proof (round_pos_nonneg (- x) H). lra.
  - assert (H : (0 < - y)%Q) by lra.
    assert (H' : (- y <= - x)%Q) by lra.
    pose proof (round_pos_mono _ _ H H'). lra.
  - assert (H : (0 < - x)%Q) by lra.
    pose proof (round_pos_nonneg (- x) H).
    pose proof (round_pos_nonneg y Hy). lra.
  - now apply round_pos_mono.
Qed.

Lemma round64_compat (x y : Q) : (x == y)%Q -> (round64 x == round64 y)%Q.
Proof.
  intros H. apply Qle_antisym; apply round64_mono; rewrite H; apply Qle_refl.
Qed.

Lemma round64_0 : round64 0 = 0%Q.
Proof. reflexivity. Qed.

Lemma round64_1 : (round64 1 == 1)%Q.
Proof. vm_compute. reflexivity. Qed.

Lemma round64_100 : (round64 100 == 100)%Q.
Proof. vm_compute. reflexivity. Qed.

(** Rounding keeps a value between two floats between them. *)
Lemma round64_between (lo hi x : Q) :
  (round64 lo == lo)%Q -> (round64 hi == hi)%Q ->
  (lo <= x <= hi)%Q -> (lo <= round64 x <= hi)%Q.
Proof.
  intros Hlo Hhi [H1 H2]. split.
  - rewrite <- Hlo. now apply round64_mono.
  - rewrite <- Hhi. now apply round64_mono.
Qed.

(** ** Usage sampler *)

Lemma truediv_ret (a b : N) :
  b <> 0%N -> truediv a b = Ret (round64 (fraction a b)).
Proof.
  intro Hb. unfold truediv. destruct (N.eqb_spec b 0); [contradiction|reflexivity].
Qed.

Lemma truediv_zero (a : N) : truediv a 0 = Raise ZeroDivisionError.
Proof. reflexivity. Qed.

Lemma fraction_range (a b : N) :
  (0 < b)%N -> (a <= b)%N -> (0 <= fraction a b <= 1)%Q.
Proof.
  intros Hb Hab. unfold fraction.
  assert (Hb' : (0 < inject_Z (Z.of_N b))%Q).
  { change 0%Q with (inject_Z 0). rewrite <- Zlt_Qlt. lia. }
  split.
  - apply Qle_shift_div_l; trivial.
    rewrite Qmult_0_l. change 0%Q with (inject_Z 0). rewrite <- Zle_Qle. lia.
  - apply Qle_shift_div_r; trivial.
    rewrite Qmult_1_l. rewrite <- Zle_Qle. lia.
Qed.

Lemma used_percent_ret (stat : StatVfs) :
  f_files stat <> 0%N -> f_blocks stat <> 0%N ->
  used_percent stat = Ret (float_used stat).
Proof.
  intros Hf Hb. unfold used_percent.
  now rewrite (truediv_ret _ _ Hf), (truediv_ret _ _ Hb).
Qed.

(** C10: the sampler returns a percentage exactly when the filesystem
    reports a non-zero total inode count and a non-zero total block count;
    with [f_files = 0] or [f_blocks = 0] it raises [ZeroDivisionError]
    instead, and no other failure arises from the arithmetic. *)
Theorem used_percent_total_iff (stat : StatVfs) :
  ((exists q, used_percent stat = Ret q) <->
   (0 < f_files stat /\ 0 < f_blocks stat)%N) /\
  (used_percent stat = Raise ZeroDivisionError <->
   (f_files stat = 0 \/ f_blocks stat = 0)%N) /\
  (forall e, used_percent stat = Raise e <-> e = ZeroDivisionError /\
   (f_files stat = 0 \/ f_blocks stat = 0)%N).
Proof.
  assert (Hcases :
    (f_files stat = 0 \/ f_blocks stat = 0)%N /\
      used_percent stat = Raise ZeroDivisionError \/
    (0 < f_files stat /\ 0 < f_blocks stat)%N /\
      exists q, used_percent stat = Ret q).
  { destruct (N.eq_dec (f_files stat) 0) as [Hf|Hf].
    - left. split; [now left|].
      unfold used_percent. now rewrite Hf, truediv_zero.
    - destruct (N.eq_dec (f_blocks stat) 0) as [Hb|Hb].
      + left. split; [now right|].
        unfold used_percent. now rewrite (truediv_ret _ _ Hf), Hb, truediv_zero.
      + right. split; [lia|]. eexists. now apply used_percent_ret. }
  destruct Hcases as [[Hz Hr]|[Hp [q Hq]]]; rewrite ?Hr, ?Hq.
  - split; [|split].
    + split; [intros [q Hq]; discriminate | lia].
    + tauto.
    + intro e. split.
      * intro H. injection H as <-. tauto.
      * now intros [-> _].
  - split; [|split].
    + split; [tauto | now exists q].
    + split; [discriminate | lia].
    + intro e. split; [discriminate | lia].
Qed.


Lemma fraction_nonneg (a b : N) : (0 < b)%N -> (0 <= fraction a b)%Q.
Proof.
  intros Hb. unfold fraction.
  apply Qle_shift_div_l.
  - change 0%Q with (inject_Z 0). rewrite <- Zlt_Qlt. lia.
  - rewrite Qmult_0_l. change 0%Q with (inject_Z 0). rewrite <- Zle_Qle. lia.
Qed.

Lemma float_fraction_nonneg (a b : N) :
  (0 < b)%N -> (0 <= round64 (fraction a b))%Q.
Proof.
  intros Hb. rewrite <- round64_0. apply round64_mono.
  now apply fraction_nonneg.
Qed.

Lemma float_fraction_le_1 (a b : N) :
  (0 < b)%N -> (a <= b)%N -> (round64 (fraction a b) <= 1)%Q.
Proof.
  intros Hb Hab. rewrite <- round64_1. apply round64_mono.
  now apply fraction_range.
Qed.

(** The percentage computed from a smaller available fraction in [0,1]. *)
Lemma scaled_range (m : Q) :
  (0 <= m <= 1)%Q -> (0 <= round64 (100 * round64 (1 - m)) <= 100)%Q.
Proof.
  intros [H0 H1].
  assert (Hy : (0 <= round64 (1 - m) <= 1)%Q).
  { apply round64_between; [now rewrite round64_0|apply round64_1|].
    split; lra. }
  apply round64_between; [now rewrite round64_0|apply round64_100|].
  destruct Hy. split; lra.
Qed.



(** ** Image inventory: the deletion-priority order *)

Lemma py_not_list_true {A} (l : list A) : py_not_list l = true <-> l = [].
Proof. destruct l; simpl; split; congruence. Qed.

Lemma key_ltb_asym (k1 k2 : bool * Z) :
  key_ltb k1 k2 = true -> key_ltb k2 k1 = false.
Proof.
  destruct k1 as [[|] z1], k2 as [[|] z2]; unfold key_ltb; simpl;
    try congruence; rewrite Z.ltb_lt, Z.ltb_ge; lia.
Qed.

Lemma key_ltb_false_trans (k1 k2 k3 : bool * Z) :
  key_ltb k1 k2 = false -> key_ltb k2 k3 = false -> key_ltb k1 k3 = false.
Proof.
  destruct k1 as [[|] z1], k2 as [[|] z2], k3 as [[|] z3];
    unfold key_ltb; simpl; try congruence; rewrite !Z.ltb_ge; lia.
Qed.

Lemma not_below_deletion_order (a b : Image) :
  not_below a b -> deletion_order a b.
Proof.
  unfold not_below, deletion_order, image_key, key_ltb. simpl.
  rewrite <- !py_not_list_true.
  destruct (py_not_list (tags a)), (py_not_list (tags b));
    try congruence; rewrite ?Z.ltb_ge; intuition congruence.
Qed.

Lemma insert_desc_perm (x : Image) (l : list Image) :
  Permutation (x :: l) (insert_desc x l).
Proof.
  induction l as [|y l IH]; simpl; [reflexivity|].
  destruct (key_ltb (image_key x) (image_key y)); [|reflexivity].
  rewrite perm_swap. now constructor.
Qed.

Lemma sort_desc_perm (l : list Image) : Permutation l (sort_desc l).
Proof.
  induction l as [|x l IH]; simpl; [constructor|].
  rewrite <- insert_desc_perm. now constructor.
Qed.

Lemma insert_desc_sorted (x : Image) (l : list Image) :
  StronglySorted not_below l -> StronglySorted not_below (insert_desc x l).
Proof.
  induction 1 as [|y l Hs IH Hy]; simpl.
  - repeat constructor.
  - destruct (key_ltb (image_key x) (image_key y)) eqn:E.
    + constructor; [exact IH|].
      eapply Permutation_Forall; [apply insert_desc_perm|].
      constructor; [|exact Hy]. now apply key_ltb_asym.
    + constructor; [now constructor|].
      constructor; [exact E|].
      eapply Forall_impl; [|exact Hy].
      intros z Hz. eapply key_ltb_false_trans; eassumption.
Qed.

Lemma sort_desc_sorted (l : list Image) :
  StronglySorted not_below (sort_desc l).
Proof.
  induction l as [|x l IH]; simpl; [constructor|].
  now apply insert_desc_sorted.
Qed.

Lemma StronglySorted_impl {A} (R1 R2 : A -> A -> Prop) (l : list A) :
  (forall a b, R1 a b -> R2 a b) ->
  StronglySorted R1 l -> StronglySorted R2 l.
Proof.
  intros HR. induction 1 as [|a l Hs IH Ha]; constructor; trivial.
  eapply Forall_impl; [|exact Ha]. apply HR.
Qed.

(** C8: the inventory listing returns the runtime's images rearranged so
    that every untagged image stands before every tagged one and, within a
    class, sizes descend; the three-image example of the spec sorts as the
    spec says. *)
Theorem get_docker_images_order (w : World) (s : State)
    (images : list Image) :
  images_list w (n_list s) = Ret images ->
  exists sorted,
    result_of (get_docker_images w s) = Ret sorted /\
    Permutation images sorted /\
    StronglySorted deletion_order sorted /\
    (images = unsorted_example -> sorted = sorted_example).
Proof.
  intros Hl. exists (sort_desc images).
  unfold get_docker_images, bind, images_list_call, ret, result_of.
  rewrite Hl. simpl.
  split; [reflexivity|]. split; [apply sort_desc_perm|]. split.
  - eapply StronglySorted_impl; [apply not_below_deletion_order|].
    apply sort_desc_sorted.
  - intros ->. reflexivity.
Qed.

Lemma get_docker_images_order_witness :
  exists sorted,
    result_of (get_docker_images (steady_world unsorted_example (Ret tt))
                 initial_state) = Ret sorted /\
    sorted = sorted_example.
Proof.
  destruct (get_docker_images_order
              (steady_world unsorted_example (Ret tt)) initial_state
              unsorted_example eq_refl)
    as (sorted & Hr & _ & _ & Hex).
  exists sorted. split; [exact Hr|exact (Hex eq_refl)].
Defined.

(** ** The eviction engine *)

(** *** Steps of the program under known answers *)

Lemma get_used_percent_eq (cfg : Config) (w : World) (s : State)
    (stat : StatVfs) :
  os_statvfs w (n_statvfs s) = Ret stat ->
  get_used_percent cfg w s =
  (used_percent stat,
   mkState (S (n_statvfs s)) (n_list s) (n_remove s) (n_patch s)
           (n_clock s) (unschedulable s),
   [EStatvfs (path_to_check cfg)]).
Proof.
  intros H. unfold get_used_percent, bind, statvfs_call, lift.
  rewrite H. reflexivity.
Qed.

Lemma cordon_if_node_eq (cfg : Config) (w : World) (s : State) :
  kube_ok w ->
  cordon_if_node cfg w s = (Ret tt, patched cfg 1 true s, cordon_events cfg).
Proof.
  intros Hk. unfold cordon_if_node, patched, cordon_events.
  destruct (node_name cfg) as [n|]; [|reflexivity].
  unfold bind, logging_info, emit, cordon, patch_node_call. simpl.
  now rewrite Hk.
Qed.

Lemma uncordon_if_node_eq (cfg : Config) (w : World) (s : State) :
  kube_ok w ->
  uncordon_if_node cfg w s =
  (Ret tt, patched cfg 1 false s, uncordon_events cfg).
Proof.
  intros Hk. unfold uncordon_if_node, patched, uncordon_events.
  destruct (node_name cfg) as [n|]; [|reflexivity].
  unfold bind, logging_info, emit, uncordon, patch_node_call. simpl.
  now rewrite Hk.
Qed.

Lemma bind_eq {A B} (m : M A) (f : A -> M B) (s s1 : State) (a : A)
    (ev : list Event) :
  m s = (Ret a, s1, ev) -> bind m f s = prepend ev (f a s1).
Proof.
  intros H. unfold bind, prepend, result_of, state_of, events_of. rewrite H.
  now destruct (f a s1) as [[r s2] ev2].
Qed.

Lemma bind_raise {A B} (m : M A) (f : A -> M B) (s s1 : State) (e : Exn)
    (ev : list Event) :
  m s = (Raise e, s1, ev) -> bind m f s = (Raise e, s1, ev).
Proof. intros H. unfold bind. now rewrite H. Qed.

Lemma prepend_prepend {A} (ev1 ev2 : list Event)
    (o : Result A * State * list Event) :
  prepend ev1 (prepend ev2 o) = prepend (ev1 ++ ev2) o.
Proof. unfold prepend. simpl. now rewrite app_assoc. Qed.

Lemma prepend_pair {A} (ev1 ev2 : list Event) (r : Result A) (s : State) :
  prepend ev1 (r, s, ev2) = (r, s, ev1 ++ ev2).
Proof. reflexivity. Qed.

Lemma remove_handler_fatal (cfg : Config) (name : string) (e : Exn) :
  fatal e -> remove_handler cfg name e = raise e.
Proof.
  intros (Hc & Hn & Ht). unfold Conflict, NotFound, Timeout in *.
  destruct e as [| |sc| | | |]; try reflexivity; [|congruence].
  unfold remove_handler.
  destruct sc as [z|]; simpl; [|reflexivity].
  destruct (Z.eqb_spec z 409) as [->|_]; [congruence|].
  destruct (Z.eqb_spec z 404) as [->|_]; [congruence|reflexivity].
Qed.

Lemma time_sleep_ok (seconds : Q) :
  (0 <= seconds)%Q -> time_sleep seconds = emit (ESleep seconds).
Proof.
  intros H. unfold time_sleep. apply Qltb_ge in H. now rewrite H.
Qed.

Lemma time_sleep_negative (seconds : Q) :
  (seconds < 0)%Q -> time_sleep seconds = raise ValueError.
Proof.
  intros H. unfold time_sleep. apply Qltb_lt in H. now rewrite H.
Qed.

Lemma py_max_30_nonneg (d : Q) : (0 <= py_max d 30)%Q.
Proof.
  rewrite py_max_Qmax. eapply Qle_trans; [|apply Q.le_max_r]. discriminate.
Qed.

Lemma evict_one_unfold (cfg : Config) (w : World) (image : Image)
    (deleted : nat) (s : State) :
  kube_ok w ->
  evict_one cfg w image deleted s =
  prepend
    (cordon_events cfg ++
     [ELog (LRemoving (image_name image)
                      (round64 (inject_Z (Size image) / inject_Z (2 ^ 30))));
      ERemove (id image)])
    (match images_remove w (n_remove s) (id image) with
     | Ret _ =>
         after_removed cfg image deleted
           (patched cfg 1 true
              (mkState (n_statvfs s) (n_list s) (S (n_remove s))
                       (n_patch s) (n_clock s) (unschedulable s)))
     | Raise e =>
         bind (remove_handler cfg (image_name image) e)
              (fun completed =>
                 ret (if completed then S deleted else deleted))
           (patched cfg 1 true
              (mkState (n_statvfs s) (n_list s) (S (n_remove s))
                       (n_patch s) (n_clock s) (unschedulable s)))
     end).
Proof.
  intros Hkube. unfold evict_one.
  rewrite (bind_eq _ _ _ _ _ _ (cordon_if_node_eq cfg w s Hkube)).
  unfold patched, cordon_events, after_removed.
  destruct (node_name cfg) as [n|];
    unfold bind, try_except, logging_info, emit, images_remove_call,
      time_sleep, ret, prepend, result_of, state_of, events_of;
    cbn [fst snd app n_statvfs n_list n_remove n_patch n_clock unschedulable];
    destruct (images_remove w (n_remove s) (id image)) as [u|e];
    cbn [fst snd app];
    try (destruct (Qltb (delay cfg) 0); reflexivity);
    destruct (remove_handler cfg (image_name image) e _) as [[[c|e'] s2] ev2];
    cbn [fst snd app]; reflexivity.
Qed.

Lemma prepend_bind {A B} (ev : list Event) (m : M A) (f : A -> M B)
    (s : State) (o : Result A * State * list Event) :
  m s = prepend ev o ->
  bind m f s =
  prepend ev
    (match o with
     | (Ret a, s1, ev1) => prepend ev1 (f a s1)
     | (Raise e, s1, ev1) => (Raise e, s1, ev1)
     end).
Proof.
  destruct o as [[[a|e] s1] ev1]; unfold prepend at 1; simpl; intros H.
  - rewrite (bind_eq _ _ _ _ _ _ H). now rewrite prepend_prepend.
  - now rewrite (bind_raise _ _ _ _ _ _ H).
Qed.

Lemma match_bind {A B} (m : M A) (f : A -> M B) (s : State) :
  match m s with
  | (Ret a, s1, ev1) => prepend ev1 (f a s1)
  | (Raise e, s1, ev1) => (Raise e, s1, ev1)
  end = bind m f s.
Proof.
  unfold bind, prepend, result_of, state_of, events_of.
  destruct (m s) as [[[a|e] s1] ev1]; [|reflexivity].
  now destruct (f a s1) as [[r s2] ev2].
Qed.

(** One iteration of the deletion loop whose sample is above [gc_low]. *)
Lemma evict_loop_unfold (cfg : Config) (w : World) (image : Image)
    (rest : list Image) (deleted : nat) (s : State) (stat : StatVfs)
    (used : Q) :
  kube_ok w ->
  os_statvfs w (n_statvfs s) = Ret stat ->
  used_percent stat = Ret used ->
  (gc_low cfg < used)%Q ->
  evict_loop cfg w (image :: rest) deleted s =
  prepend (attempt_events cfg image)
    (match images_remove w (n_remove s) (id image) with
     | Ret _ =>
         bind (after_removed cfg image deleted) (evict_loop cfg w rest)
           (after_attempt cfg s)
     | Raise e =>
         bind (remove_handler cfg (image_name image) e)
              (fun completed =>
                 evict_loop cfg w rest
                   (if completed then S deleted else deleted))
           (after_attempt cfg s)
     end).
Proof.
  intros Hkube Hstat Hused Hlow. apply Qltb_lt in Hlow.
  simpl evict_loop.
  rewrite (bind_eq _ _ _ _ _ _
             (eq_trans (get_used_percent_eq cfg w s stat Hstat)
                       (f_equal (fun r => (r, _, _)) Hused))).
  rewrite Hlow.
  unfold attempt_events, after_attempt.
  rewrite <- prepend_prepend. f_equal.
  erewrite prepend_bind; [|apply evict_one_unfold; exact Hkube].
  f_equal. cbn [n_statvfs n_list n_remove n_patch n_clock unschedulable].
  destruct (images_remove w (n_remove s) (id image)) as [u|e].
  - apply (match_bind (after_removed cfg image deleted)
             (evict_loop cfg w rest)).
  - rewrite (match_bind
               (bind (remove_handler cfg (image_name image) e)
                     (fun completed =>
                        ret (if completed then S deleted else deleted)))
               (evict_loop cfg w rest)).
    unfold bind.
    destruct (remove_handler cfg (image_name image) e _)
      as [[[c|e'] s2] ev2]; [|reflexivity].
    unfold ret. cbn [fst snd]. rewrite app_nil_r.
    now destruct (evict_loop cfg w rest _ s2) as [[r s3] ev3].
Qed.

(** The loop stops at a sample that is not above [gc_low]. *)
Lemma evict_loop_stop (cfg : Config) (w : World) (image : Image)
    (rest : list Image) (deleted : nat) (s : State) (stat : StatVfs)
    (used : Q) :
  os_statvfs w (n_statvfs s) = Ret stat ->
  used_percent stat = Ret used ->
  (used <= gc_low cfg)%Q ->
  evict_loop cfg w (image :: rest) deleted s =
  (Ret (image :: rest, deleted), sampled s, [EStatvfs (path_to_check cfg)]).
Proof.
  intros Hstat Hused Hlow. apply Qltb_ge in Hlow.
  simpl evict_loop.
  rewrite (bind_eq _ _ _ _ _ _
             (eq_trans (get_used_percent_eq cfg w s stat Hstat)
                       (f_equal (fun r => (r, _, _)) Hused))).
  rewrite Hlow. reflexivity.
Qed.

(** A sample that fails ends the loop with its exception. *)
Lemma evict_loop_sample_raise (cfg : Config) (w : World) (image : Image)
    (rest : list Image) (deleted : nat) (s : State) (stat : StatVfs)
    (e : Exn) :
  os_statvfs w (n_statvfs s) = Ret stat ->
  used_percent stat = Raise e ->
  evict_loop cfg w (image :: rest) deleted s =
  (Raise e, sampled s, [EStatvfs (path_to_check cfg)]).
Proof.
  intros Hstat Hused. simpl evict_loop.
  now rewrite (bind_raise _ _ _ _ _ _
             (eq_trans (get_used_percent_eq cfg w s stat Hstat)
                       (f_equal (fun r => (r, _, _)) Hused))).
Qed.

Section Iteration.

Variables (cfg : Config) (w : World).
Variables (image : Image) (rest : list Image) (deleted : nat) (s : State).
Variables (stat : StatVfs) (used : Q).
Hypothesis Hkube : kube_ok w.
Hypothesis Hstat : os_statvfs w (n_statvfs s) = Ret stat.
Hypothesis Hused : used_percent stat = Ret used.
Hypothesis Hlow : (gc_low cfg < used)%Q.

Lemma evict_loop_success (u : unit) :
  (0 <= delay cfg)%Q ->
  images_remove w (n_remove s) (id image) = Ret u ->
  evict_loop cfg w (image :: rest) deleted s =
  prepend (attempt_events cfg image ++
           [ELog (LRemoved (image_name image)); ESleep (delay cfg)])
    (evict_loop cfg w rest (S deleted) (after_attempt cfg s)).
Proof.
  intros Hdelay Hr.
  rewrite (evict_loop_unfold _ _ _ _ _ _ _ _ Hkube Hstat Hused Hlow), Hr.
  rewrite <- prepend_prepend. f_equal.
  unfold bind, after_removed. apply Qltb_ge in Hdelay. rewrite Hdelay.
  unfold prepend, result_of, state_of, events_of. cbn [fst snd app].
  now destruct (evict_loop cfg w rest (S deleted) _) as [[r s3] ev3].
Qed.

(** A removal that returned, followed by a sleep of negative length. *)
Lemma evict_loop_sleep_raises (u : unit) :
  (delay cfg < 0)%Q ->
  images_remove w (n_remove s) (id image) = Ret u ->
  evict_loop cfg w (image :: rest) deleted s =
  (Raise ValueError, after_attempt cfg s,
   attempt_events cfg image ++ [ELog (LRemoved (image_name image))]).
Proof.
  intros Hdelay Hr.
  rewrite (evict_loop_unfold _ _ _ _ _ _ _ _ Hkube Hstat Hused Hlow), Hr.
  unfold bind, after_removed. apply Qltb_lt in Hdelay. rewrite Hdelay.
  reflexivity.
Qed.

Lemma evict_loop_conflict :
  images_remove w (n_remove s) (id image) = Raise Conflict ->
  evict_loop cfg w (image :: rest) deleted s =
  prepend (attempt_events cfg image ++
           [ELog (LFailedSkipping (image_name image));
            ELog (LErrorText Conflict)])
    (evict_loop cfg w rest deleted (after_attempt cfg s)).
Proof.
  intros Hr.
  rewrite (evict_loop_unfold _ _ _ _ _ _ _ _ Hkube Hstat Hused Hlow), Hr.
  rewrite <- prepend_prepend. f_equal.
  unfold bind, prepend, result_of, state_of, events_of. simpl.
  now destruct (evict_loop cfg w rest deleted _) as [[r s3] ev3].
Qed.

Lemma evict_loop_not_found :
  images_remove w (n_remove s) (id image) = Raise NotFound ->
  evict_loop cfg w (image :: rest) deleted s =
  prepend (attempt_events cfg image ++
           [ELog (LNotFound (image_name image))])
    (evict_loop cfg w rest deleted (after_attempt cfg s)).
Proof.
  intros Hr.
  rewrite (evict_loop_unfold _ _ _ _ _ _ _ _ Hkube Hstat Hused Hlow), Hr.
  rewrite <- prepend_prepend. f_equal.
  unfold bind, prepend, result_of, state_of, events_of. simpl.
  now destruct (evict_loop cfg w rest deleted _) as [[r s3] ev3].
Qed.

Lemma evict_loop_timeout :
  images_remove w (n_remove s) (id image) = Raise Timeout ->
  evict_loop cfg w (image :: rest) deleted s =
  prepend (attempt_events cfg image ++
           [ELog (LTimeout (image_name image));
            ESleep (py_max (delay cfg) 30)])
    (evict_loop cfg w rest deleted (after_attempt cfg s)).
Proof.
  intros Hr.
  rewrite (evict_loop_unfold _ _ _ _ _ _ _ _ Hkube Hstat Hused Hlow), Hr.
  rewrite <- prepend_prepend. f_equal.
  unfold remove_handler, Timeout.
  rewrite (time_sleep_ok _ (py_max_30_nonneg (delay cfg))).
  unfold bind, prepend, result_of, state_of, events_of. simpl.
  now destruct (evict_loop cfg w rest deleted _) as [[r s3] ev3].
Qed.

Lemma evict_loop_fatal (e : Exn) :
  images_remove w (n_remove s) (id image) = Raise e ->
  fatal e ->
  evict_loop cfg w (image :: rest) deleted s =
  (Raise e, after_attempt cfg s, attempt_events cfg image).
Proof.
  intros Hr Hf.
  rewrite (evict_loop_unfold _ _ _ _ _ _ _ _ Hkube Hstat Hused Hlow), Hr.
  rewrite (remove_handler_fatal _ _ _ Hf).
  unfold bind, raise, prepend, result_of, state_of, events_of. simpl.
  now rewrite app_nil_r.
Qed.

End Iteration.

(** C5: in an iteration whose removal fails, a Conflict (409) and a
    NotFound (404) are logged and the loop goes on with the candidates that
    follow, the popped image left out and no sleep added; every exception
    that is neither of these nor a Timeout ends the loop with that
    exception, and whatever follows the loop in the program is not run. *)
Theorem deletion_failure_classification (cfg : Config) (w : World)
    (image : Image) (rest : list Image) (deleted : nat) (s : State)
    (stat : StatVfs) (used : Q) (e : Exn) :
  kube_ok w ->
  os_statvfs w (n_statvfs s) = Ret stat ->
  used_percent stat = Ret used ->
  (gc_low cfg < used)%Q ->
  images_remove w (n_remove s) (id image) = Raise e ->
  (e = Conflict ->
   evict_loop cfg w (image :: rest) deleted s =
   prepend (attempt_events cfg image ++
            [ELog (LFailedSkipping (image_name image));
             ELog (LErrorText Conflict)])
     (evict_loop cfg w rest deleted (after_attempt cfg s))) /\
  (e = NotFound ->
   evict_loop cfg w (image :: rest) deleted s =
   prepend (attempt_events cfg image ++
            [ELog (LNotFound (image_name image))])
     (evict_loop cfg w rest deleted (after_attempt cfg s))) /\
  (fatal e ->
   forall (B : Type) (rest_of_program : list Image * nat -> M B),
     evict_loop cfg w (image :: rest) deleted s =
     (Raise e, after_attempt cfg s, attempt_events cfg image) /\
     bind (evict_loop cfg w (image :: rest) deleted) rest_of_program s =
     (Raise e, after_attempt cfg s, attempt_events cfg image)).
Proof.
  intros Hkube Hstat Hused Hlow Hr. split; [|split].
  - intros ->. now apply (evict_loop_conflict _ _ _ _ _ _ stat used).
  - intros ->. now apply (evict_loop_not_found _ _ _ _ _ _ stat used).
  - intros Hf B f.
    pose proof (evict_loop_fatal _ _ _ rest deleted _ _ _
                  Hkube Hstat Hused Hlow e Hr Hf) as H.
    split; [exact H|]. now apply bind_raise.
Qed.

Lemma deletion_failure_classification_witness :
  evict_loop cfg_node (steady_world [image_a; image_b] (Raise Conflict))
    [image_a; image_b] 0 initial_state =
  prepend (attempt_events cfg_node image_a ++
           [ELog (LFailedSkipping (image_name image_a));
            ELog (LErrorText Conflict)])
    (evict_loop cfg_node (steady_world [image_a; image_b] (Raise Conflict))
       [image_b] 0 (after_attempt cfg_node initial_state)) /\
  evict_loop cfg_node
    (steady_world [image_a; image_b] (Raise (APIError (Some 500))))
    [image_a; image_b] 0 initial_state =
  (Raise (APIError (Some 500)), after_attempt cfg_node initial_state,
   attempt_events cfg_node image_a).
Proof.
  split.
  - refine (proj1 (deletion_failure_classification cfg_node
              (steady_world [image_a; image_b] (Raise Conflict))
              image_a [image_b] 0%nat initial_state (stat_used 90) _ Conflict
              _ _ _ _ _) eq_refl).
    + intro k. reflexivity.
    + reflexivity.
    + reflexivity.
    + reflexivity.
    + reflexivity.
  - refine (proj1 (proj2 (proj2 (deletion_failure_classification cfg_node
              (steady_world [image_a; image_b] (Raise (APIError (Some 500))))
              image_a [image_b] 0%nat initial_state (stat_used 90) _
              (APIError (Some 500)) _ _ _ _ _)) _ unit (fun _ => ret tt))).
    + intro k. reflexivity.
    + reflexivity.
    + reflexivity.
    + reflexivity.
    + reflexivity.
    + repeat split; discriminate.
Defined.



(** *** A whole pass *)

Lemma eviction_pass_unfold (cfg : Config) (w : World) (s : State)
    (listed : list Image) :
  kube_ok w ->
  images_list w (n_list s) = Ret listed ->
  eviction_pass cfg w s =
  prepend (pass_prologue cfg (sort_desc listed))
    (match evict_loop cfg w (sort_desc listed) 0 (pass_loop_state cfg s) with
     | (Ret out, s2, ev2) =>
         (Ret (mkReport (List.length (sort_desc listed))
                 (Z.of_nat (List.length (sort_desc listed)) -
                  Z.of_nat (List.length (fst out)))
                 (snd out)),
          pass_final_state cfg s2,
          ev2 ++ pass_epilogue cfg w s s2
                   (List.length (sort_desc listed)) (fst out))
     | (Raise e, s2, ev2) => (Raise e, s2, ev2)
     end).
Proof.
  intros Hkube Hlist.
  assert (Hget : get_docker_images w s =
                 (Ret (sort_desc listed),
                  mkState (n_statvfs s) (S (n_list s)) (n_remove s)
                          (n_patch s) (n_clock s) (unschedulable s),
                  [EListImages])).
  { unfold get_docker_images, bind, images_list_call, ret.
    now rewrite Hlist. }
  unfold eviction_pass.
  rewrite (bind_eq _ _ _ _ _ _ Hget).
  set (images := sort_desc listed).
  assert (Hlog : forall s0,
    (if py_not_list images then logging_info LNoImages
     else logging_info (LAvailable (List.length images))) s0 =
    (Ret tt, s0, [ELog (if py_not_list images then LNoImages
                        else LAvailable (List.length images))])).
  { intro s0. now destruct (py_not_list images). }
  rewrite (bind_eq _ _ _ _ _ _ (Hlog _)).
  erewrite bind_eq; [|reflexivity].
  erewrite bind_eq; [|apply cordon_if_node_eq; exact Hkube].
  rewrite !prepend_prepend.
  change (patched cfg 1 true _) with (pass_loop_state cfg s).
  match goal with
  | |- prepend ?ev _ = _ =>
      replace ev with (pass_prologue cfg images) by reflexivity
  end.
  f_equal.
  destruct (evict_loop cfg w images 0 (pass_loop_state cfg s))
    as [[[out|e] s2] ev2] eqn:Hloop.
  - rewrite (bind_eq _ _ _ _ _ _ Hloop).
    erewrite bind_eq; [|apply uncordon_if_node_eq; exact Hkube].
    erewrite bind_eq; [|reflexivity].
    erewrite bind_eq; [|reflexivity].
    rewrite !prepend_prepend.
    unfold ret, prepend, result_of, state_of, events_of. cbn [fst snd].
    rewrite app_nil_r.
    assert (Hclock : n_clock (patched cfg 1 false s2) = n_clock s2).
    { unfold patched. now destruct (node_name cfg). }
    unfold pass_epilogue, pass_summary, pass_final_state.
    rewrite Hclock. cbn [n_clock].
    rewrite <- !app_assoc.
    destruct (patched cfg 1 false s2) as [a b c d e f]; cbn in *; subst.
    reflexivity.
  - now rewrite (bind_raise _ _ _ _ _ _ Hloop).
Qed.

(** *** A poll *)

Lemma poll_idle (cfg : Config) (w : World) (s : State) (stat : StatVfs)
    (used : Q) :
  os_statvfs w (n_statvfs s) = Ret stat ->
  used_percent stat = Ret used ->
  (used < gc_high cfg)%Q ->
  poll cfg w s =
  (Ret None, sampled s,
   [EStatvfs (path_to_check cfg); ELog (LUsed used); ESleep 60]).
Proof.
  intros Hstat Hused Hhigh. apply Qltb_lt in Hhigh.
  unfold poll.
  rewrite (bind_eq _ _ _ _ _ _
             (eq_trans (get_used_percent_eq cfg w s stat Hstat)
                       (f_equal (fun r => (r, _, _)) Hused))).
  erewrite bind_eq; [|reflexivity].
  rewrite Hhigh. reflexivity.
Qed.

Lemma poll_evicting (cfg : Config) (w : World) (s : State) (stat : StatVfs)
    (used : Q) :
  os_statvfs w (n_statvfs s) = Ret stat ->
  used_percent stat = Ret used ->
  (gc_high cfg <= used)%Q ->
  poll cfg w s =
  prepend [EStatvfs (path_to_check cfg); ELog (LUsed used)]
    (match eviction_pass cfg w (sampled s) with
     | (Ret report, s2, ev) => (Ret (Some report), s2, ev ++ [ESleep 60])
     | (Raise e, s2, ev) => (Raise e, s2, ev)
     end).
Proof.
  intros Hstat Hused Hhigh. apply Qltb_ge in Hhigh.
  unfold poll.
  rewrite (bind_eq _ _ _ _ _ _
             (eq_trans (get_used_percent_eq cfg w s stat Hstat)
                       (f_equal (fun r => (r, _, _)) Hused))).
  erewrite bind_eq; [|reflexivity].
  rewrite prepend_prepend, Hhigh. f_equal.
  fold (sampled s).
  destruct (eviction_pass cfg w (sampled s)) as [[[report|e] s2] ev] eqn:Hp.
  - erewrite bind_eq; [|now rewrite (bind_eq _ _ _ _ _ _ Hp)].
    erewrite bind_eq; [|reflexivity].
    unfold ret, prepend, result_of, state_of, events_of. cbn.
    now rewrite !app_nil_r.
  - erewrite bind_raise; [reflexivity|].
    now rewrite (bind_raise _ _ _ _ _ _ Hp).
Qed.

(** With a node configured, a pass on an empty inventory still cordons the
    node and uncordons it: the claim "no cordon or uncordon call is issued"
    fails. *)
Lemma empty_inventory_cordons :
  let o := poll cfg_node (steady_world [] (Ret tt)) initial_state in
  result_of o = Ret (Some (mkReport 0 0 0)) /\
  In (EPatchNode "node-1" true) (events_of o) /\
  In (EPatchNode "node-1" false) (events_of o).
Proof.
  vm_compute. split; [reflexivity|]. split; tauto.
Qed.

(** C1 (amended): a pass triggered by a sample at or above [gc_high] on an
    empty inventory logs that there is nothing to delete, issues no removal
    call and reports zero deletions before the poll sleeps; without a node
    identity it issues no orchestrator call, and with one it cordons the
    node once and uncordons it at once. *)
Theorem empty_inventory_pass (cfg : Config) (w : World) (s : State)
    (stat : StatVfs) (used : Q) :
  kube_ok w ->
  os_statvfs w (n_statvfs s) = Ret stat ->
  used_percent stat = Ret used ->
  (gc_high cfg <= used)%Q ->
  images_list w (n_list s) = Ret [] ->
  result_of (poll cfg w s) = Ret (Some (mkReport 0 0 0)) /\
  events_of (poll cfg w s) =
    [EStatvfs (path_to_check cfg); ELog (LUsed used);
     EListImages; ELog LNoImages; EPerfCounter] ++
    match node_name cfg with
    | Some n => [ELog (LCordoning n); EPatchNode n true;
                 ELog (LUncordoning n); EPatchNode n false]
    | None => []
    end ++
    [EPerfCounter;
     ELog (LDeleted 0 (py_int (round64 (perf_counter w (S (n_clock s)) -
                                        perf_counter w (n_clock s)))));
     ESleep 60] /\
  n_remove (state_of (poll cfg w s)) = n_remove s /\
  unschedulable (state_of (poll cfg w s)) =
    match node_name cfg with
    | Some _ => false
    | None => unschedulable s
    end.
Proof.
  intros Hkube Hstat Hused Hhigh Hlist.
  rewrite (poll_evicting _ _ _ _ _ Hstat Hused Hhigh).
  rewrite (eviction_pass_unfold cfg w (sampled s) [] Hkube Hlist).
  unfold pass_prologue, pass_epilogue, pass_summary, pass_final_state,
    pass_loop_state, patched, cordon_events, uncordon_events, sampled.
  destruct (node_name cfg) as [n|]; cbn; repeat split; reflexivity.
Qed.

Lemma empty_inventory_pass_witness :
  events_of (poll cfg_node (steady_world [] (Ret tt)) initial_state) =
    [EStatvfs "/var/lib/docker";
     ELog (LUsed (float_used (stat_used 90)));
     EListImages; ELog LNoImages; EPerfCounter;
     ELog (LCordoning "node-1"); EPatchNode "node-1" true;
     ELog (LUncordoning "node-1"); EPatchNode "node-1" false;
     EPerfCounter; ELog (LDeleted 0 1); ESleep 60].
Proof.
  refine (proj1 (proj2 (empty_inventory_pass cfg_node
            (steady_world [] (Ret tt)) initial_state (stat_used 90) _
            _ _ _ _ _))).
  - intro k. reflexivity.
  - reflexivity.
  - reflexivity.
  - vm_compute. discriminate.
  - reflexivity.
Defined.

(** *** Accounting over a deletion loop *)

Lemma removal_calls_app (ev1 ev2 : list Event) :
  removal_calls (ev1 ++ ev2) = (removal_calls ev1 + removal_calls ev2)%nat.
Proof. unfold removal_calls. now rewrite filter_app, length_app. Qed.

Lemma removals_confirmed_app (ev1 ev2 : list Event) :
  removals_confirmed (ev1 ++ ev2) =
  (removals_confirmed ev1 + removals_confirmed ev2)%nat.
Proof. unfold removals_confirmed. now rewrite filter_app, length_app. Qed.

Lemma attempt_events_counts (cfg : Config) (image : Image) :
  removal_calls (attempt_events cfg image) = 1%nat /\
  removals_confirmed (attempt_events cfg image) = 0%nat.
Proof.
  unfold attempt_events, cordon_events.
  now destruct (node_name cfg).
Qed.

Section Benign.

Variables (cfg : Config) (w : World).
Hypothesis Hkube : kube_ok w.
Hypothesis Hsampler : sampler_ok w.
Hypothesis Hrecoverable : removals_recoverable w.
Hypothesis Hdelay : (0 <= delay cfg)%Q.

(** With recoverable failures only, the deletion loop returns; it made one
    removal call per popped candidate, and [deleted] grew by the number of
    removals logged as done. *)
Lemma evict_loop_benign (images : list Image) :
  forall (deleted : nat) (s : State),
  exists remaining deleted' s' ev,
    evict_loop cfg w images deleted s = (Ret (remaining, deleted'), s', ev) /\
    List.length images = (removal_calls ev + List.length remaining)%nat /\
    deleted' = (deleted + removals_confirmed ev)%nat.
Proof.
  induction images as [|image rest IH]; intros deleted s.
  - exists [], deleted, s, []. unfold removals_confirmed. simpl.
    repeat split. lia.
  - destruct (Hsampler (n_statvfs s)) as (stat & used & Hstat & Hused).
    destruct (Qlt_le_dec (gc_low cfg) used) as [Hlow|Hlow].
    + pose proof (attempt_events_counts cfg image) as [Hc1 Hc0].
      destruct (images_remove w (n_remove s) (id image)) as [u|e] eqn:Hr.
      * destruct (IH (S deleted) (after_attempt cfg s))
          as (remaining & d' & s' & ev & Heq & Hlen & Hd).
        exists remaining, d', s'. eexists.
        rewrite (evict_loop_success _ _ _ _ _ _ _ _ Hkube Hstat Hused Hlow
                   u Hdelay Hr), Heq, prepend_pair.
        split; [reflexivity|].
        rewrite !removal_calls_app, !removals_confirmed_app, Hc1, Hc0.
        unfold removal_calls, removals_confirmed in *. simpl. lia.
      * destruct (IH deleted (after_attempt cfg s))
          as (remaining & d' & s' & ev & Heq & Hlen & Hd).
        exists remaining, d', s'.
        destruct (Hrecoverable _ _ _ Hr) as [-> | [-> | ->]]; eexists.
        -- rewrite (evict_loop_conflict _ _ _ _ _ _ _ _ Hkube Hstat Hused
                      Hlow Hr), Heq, prepend_pair.
           split; [reflexivity|].
           rewrite !removal_calls_app, !removals_confirmed_app, Hc1, Hc0.
           unfold removal_calls, removals_confirmed in *. simpl. lia.
        -- rewrite (evict_loop_not_found _ _ _ _ _ _ _ _ Hkube Hstat Hused
                      Hlow Hr), Heq, prepend_pair.
           split; [reflexivity|].
           rewrite !removal_calls_app, !removals_confirmed_app, Hc1, Hc0.
           unfold removal_calls, removals_confirmed in *. simpl. lia.
        -- rewrite (evict_loop_timeout _ _ _ _ _ _ _ _ Hkube Hstat Hused
                      Hlow Hr), Heq, prepend_pair.
           split; [reflexivity|].
           rewrite !removal_calls_app, !removals_confirmed_app, Hc1, Hc0.
           unfold removal_calls, removals_confirmed in *. simpl. lia.
    + exists (image :: rest), deleted, (sampled s). eexists.
      rewrite (evict_loop_stop _ _ _ _ _ _ _ _ Hstat Hused Hlow).
      split; [reflexivity|]. simpl. split; [reflexivity|].
      unfold removals_confirmed. simpl. lia.
Qed.

End Benign.

Lemma eviction_pass_benign (cfg : Config) (w : World) (s : State)
    (listed : list Image) :
  kube_ok w -> sampler_ok w -> removals_recoverable w ->
  (0 <= delay cfg)%Q ->
  images_list w (n_list s) = Ret listed ->
  exists remaining deleted s2 ev2,
    eviction_pass cfg w s =
    (Ret (mkReport (List.length (sort_desc listed))
            (Z.of_nat (List.length (sort_desc listed)) -
             Z.of_nat (List.length remaining))
            deleted),
     pass_final_state cfg s2,
     pass_prologue cfg (sort_desc listed) ++ ev2 ++
     pass_epilogue cfg w s s2 (List.length (sort_desc listed)) remaining) /\
    List.length (sort_desc listed) =
      (removal_calls ev2 + List.length remaining)%nat /\
    deleted = removals_confirmed ev2.
Proof.
  intros Hkube Hsampler Hrec Hdelay Hlist.
  destruct (evict_loop_benign cfg w Hkube Hsampler Hrec Hdelay
              (sort_desc listed)
              0%nat (pass_loop_state cfg s))
    as (remaining & d' & s2 & ev2 & Heq & Hlen & Hd).
  exists remaining, d', s2, ev2.
  rewrite (eviction_pass_unfold cfg w s listed Hkube Hlist), Heq.
  now repeat split.
Qed.

(** The summary line counts the removal calls of the pass, while [deleted]
    counts the removals that were logged as done. *)
Lemma pass_accounting (cfg : Config) (w : World) (s : State)
    (listed : list Image) :
  kube_ok w -> sampler_ok w -> removals_recoverable w ->
  (0 <= delay cfg)%Q ->
  images_list w (n_list s) = Ret listed ->
  exists report,
    result_of (eviction_pass cfg w s) = Ret report /\
    images_deleted report =
      Z.of_nat (removal_calls (events_of (eviction_pass cfg w s))) /\
    deleted_counter report =
      removals_confirmed (events_of (eviction_pass cfg w s)).
Proof.
  intros Hkube Hsampler Hrec Hdelay Hlist.
  destruct (eviction_pass_benign cfg w s listed Hkube Hsampler Hrec Hdelay
              Hlist)
    as (remaining & d & s2 & ev2 & Heq & Hlen & Hd).
  eexists. rewrite Heq. unfold result_of, events_of. cbn [fst snd].
  split; [reflexivity|]. cbn [images_deleted deleted_counter].
  rewrite !removal_calls_app, !removals_confirmed_app.
  assert (Hpro : removal_calls (pass_prologue cfg (sort_desc listed)) = 0%nat
                 /\ removals_confirmed
                      (pass_prologue cfg (sort_desc listed)) = 0%nat).
  { unfold pass_prologue, cordon_events.
    destruct (node_name cfg), (py_not_list (sort_desc listed)); now split. }
  assert (Hepi : forall n r,
            removal_calls (pass_epilogue cfg w s s2 n r) = 0%nat /\
            removals_confirmed (pass_epilogue cfg w s s2 n r) = 0%nat).
  { intros n r. unfold pass_epilogue, uncordon_events.
    destruct (node_name cfg); now split. }
  destruct Hpro as [-> ->]. destruct (Hepi (List.length (sort_desc listed))
                                           remaining) as [-> ->].
  split; lia.
Qed.

(** C2: on an inventory of two images whose removals both answer Conflict,
    the summary line reads "Deleted 2 images" although no removal was
    confirmed and the success counter [deleted] is 0: the reported count is
    the number of popped candidates. *)
Theorem summary_counts_popped_candidates :
  let o := poll cfg_node (steady_world [image_a; image_b] (Raise Conflict))
             initial_state in
  result_of o = Ret (Some (mkReport 2 2 0)) /\
  In (ELog (LDeleted 2 1)) (events_of o) /\
  removal_calls (events_of o) = 2%nat /\
  removals_confirmed (events_of o) = 0%nat.
Proof.
  vm_compute. split; [reflexivity|]. split; [tauto|]. split; reflexivity.
Qed.



Lemma steady_world_sampler_ok (images : list Image) (r : Result unit) :
  sampler_ok (steady_world images r).
Proof. intro k. now exists (stat_used 90), (float_used (stat_used 90)). Qed.


(** *** Hysteresis *)

Lemma get_used_percent_inv (cfg : Config) (w : World) (s s1 : State)
    (used : Q) (ev : list Event) :
  get_used_percent cfg w s = (Ret used, s1, ev) ->
  exists stat,
    os_statvfs w (n_statvfs s) = Ret stat /\
    used_percent stat = Ret used /\ s1 = sampled s.
Proof.
  unfold get_used_percent, bind, statvfs_call, lift.
  destruct (os_statvfs w (n_statvfs s)) as [stat|e]; [|discriminate].
  destruct (used_percent stat) as [q|e] eqn:Hq; [|discriminate].
  intros H. injection H as <- <- <-. now exists stat.
Qed.

Lemma remove_handler_state (cfg : Config) (name : string) (e : Exn)
    (s : State) :
  exists r ev, remove_handler cfg name e s = (r, s, ev).
Proof.
  unfold remove_handler.
  rewrite (time_sleep_ok _ (py_max_30_nonneg (delay cfg))).
  destruct e as [| |sc| | | |]; try (now do 2 eexists).
  destruct (status_is sc 409); [now do 2 eexists|].
  destruct (status_is sc 404); now do 2 eexists.
Qed.

Lemma after_attempt_n_statvfs (cfg : Config) (s : State) :
  n_statvfs (after_attempt cfg s) = S (n_statvfs s).
Proof. unfold after_attempt, patched. now destruct (node_name cfg). Qed.

Lemma after_removed_state (cfg : Config) (image : Image) (deleted : nat)
    (s : State) :
  exists r ev, after_removed cfg image deleted s = (r, s, ev).
Proof.
  unfold after_removed. destruct (Qltb (delay cfg) 0); now do 2 eexists.
Qed.

(** A step that leaves the state alone, followed by [f]: if the whole
    returns, [f] returned from that state. *)
Lemma bind_same_state_ret {A B} (m : M A) (f : A -> M B) (s s' : State)
    (pre ev : list Event) (out : B) :
  (exists r evh, m s = (r, s, evh)) ->
  prepend pre (bind m f s) = (Ret out, s', ev) ->
  exists a ev0, f a s = (Ret out, s', ev0).
Proof.
  intros (r & evh & Hm) Hrun. destruct r as [a|e].
  - rewrite (bind_eq _ _ _ _ _ _ Hm), prepend_prepend in Hrun.
    destruct (f a s) as [[r s3] ev3] eqn:Hf.
    unfold prepend, result_of, state_of, events_of in Hrun.
    cbn [fst snd] in Hrun.
    assert (Hr : r = Ret out) by congruence.
    assert (Hs : s3 = s') by congruence.
    subst r s3. now exists a, ev3.
  - rewrite (bind_raise _ _ _ _ _ _ Hm) in Hrun.
    unfold prepend, result_of in Hrun. cbn [fst snd] in Hrun. congruence.
Qed.

(** A deletion loop that returns has run out of candidates, or its last
    sample was not above [gc_low]. *)
Lemma evict_loop_leaves (cfg : Config) (w : World) :
  kube_ok w ->
  forall (images : list Image) (deleted : nat) (s : State)
         (remaining : list Image) (deleted' : nat) (s' : State)
         (ev : list Event),
  evict_loop cfg w images deleted s = (Ret (remaining, deleted'), s', ev) ->
  remaining = [] \/
  exists stat used,
    (n_statvfs s < n_statvfs s')%nat /\
    os_statvfs w (pred (n_statvfs s')) = Ret stat /\
    used_percent stat = Ret used /\
    (used <= gc_low cfg)%Q.
Proof.
  intros Hkube. induction images as [|image rest IH];
    intros deleted s remaining deleted' s' ev Hrun.
  - left. simpl in Hrun. unfold ret in Hrun. congruence.
  - destruct (get_used_percent cfg w s) as [[[used|e] s1] ev1] eqn:Hget.
    2:{ simpl in Hrun. rewrite (bind_raise _ _ _ _ _ _ Hget) in Hrun.
        discriminate. }
    destruct (get_used_percent_inv _ _ _ _ _ _ Hget)
      as (stat & Hstat & Hused & ->).
    destruct (Qlt_le_dec (gc_low cfg) used) as [Hlow|Hlow].
    + assert (Hnext : exists deleted1 ev0,
                evict_loop cfg w rest deleted1 (after_attempt cfg s) =
                (Ret (remaining, deleted'), s', ev0)).
      { rewrite (evict_loop_unfold _ _ _ _ _ _ _ _ Hkube Hstat Hused Hlow)
          in Hrun.
        destruct (images_remove w (n_remove s) (id image)) as [u|e].
        - exact (bind_same_state_ret _ _ _ _ _ _ _
                   (after_removed_state cfg image deleted _) Hrun).
        - destruct (bind_same_state_ret _ _ _ _ _ _ _
                      (remove_handler_state cfg (image_name image) e _)
                      Hrun) as (c & ev0 & H).
          do 2 eexists. exact H. }
      destruct Hnext as (deleted1 & ev0 & Hnext).
      destruct (IH _ _ _ _ _ _ Hnext)
        as [Hnil|(stat' & used' & Hlt & Hs' & Hu' & Hle)]; [now left|].
      right. exists stat', used'.
      rewrite after_attempt_n_statvfs in Hlt.
      repeat split; trivial. lia.
    + rewrite (evict_loop_stop _ _ _ _ _ _ _ _ Hstat Hused Hlow) in Hrun.
      assert (Hrem : remaining = image :: rest) by congruence.
      assert (Hst : s' = sampled s) by congruence. subst remaining s'.
      right. exists stat, used. simpl. repeat split; trivial. lia.
Qed.

Lemma eviction_pass_lists (cfg : Config) (w : World) (s : State) :
  kube_ok w ->
  exists ev, events_of (eviction_pass cfg w s) = EListImages :: ev.
Proof.
  intros Hkube.
  destruct (images_list w (n_list s)) as [listed|e] eqn:Hlist.
  - rewrite (eviction_pass_unfold cfg w s listed Hkube Hlist).
    unfold prepend, events_of, pass_prologue. simpl. now eexists.
  - unfold eviction_pass, get_docker_images.
    erewrite bind_raise.
    + unfold events_of. simpl. now eexists.
    + unfold bind, images_list_call. now rewrite Hlist.
Qed.

(** A sample exactly at the low threshold ends the pass although it is not
    below [gc_low] and candidates remain: nothing is removed. *)
Lemma leaves_at_low_threshold :
  let o := poll cfg_node at_low_world initial_state in
  os_statvfs at_low_world 1 = Ret (stat_used 60) /\
  (exists used, used_percent (stat_used 60) = Ret used /\
                (used == 60)%Q /\ ~ (used < gc_low cfg_node)%Q) /\
  evict_loop cfg_node at_low_world [image_a; image_b] 0
    (pass_loop_state cfg_node (sampled initial_state)) =
  (Ret ([image_a; image_b], 0%nat),
   sampled (pass_loop_state cfg_node (sampled initial_state)),
   [EStatvfs "/var/lib/docker"]) /\
  result_of o = Ret (Some (mkReport 2 0 0)) /\
  removal_calls (events_of o) = 0%nat /\
  n_statvfs (state_of o) = 2%nat.
Proof.
  split; [reflexivity|]. split.
  - eexists. split; [reflexivity|]. split; [reflexivity|].
    intro H. vm_compute in H. discriminate.
  - repeat split; reflexivity.
Qed.

(** C3 (amended): a poll starts a pass exactly when its sample is at or
    above [gc_high]; inside a pass, a sample above [gc_low] always leads to
    the removal attempt of the next candidate, also when it is below
    [gc_high], and a sample at or below [gc_low] stops the loop; a loop that
    returns has no candidates left or took a last sample that was at or
    below [gc_low]. *)
Theorem hysteresis (cfg : Config) (w : World) (s : State) (stat : StatVfs)
    (used : Q) (image : Image) (rest : list Image) (deleted : nat) :
  kube_ok w ->
  os_statvfs w (n_statvfs s) = Ret stat ->
  used_percent stat = Ret used ->
  (In EListImages (events_of (poll cfg w s)) <-> (gc_high cfg <= used)%Q) /\
  ((gc_low cfg < used)%Q ->
   In (ERemove (id image))
      (events_of (evict_loop cfg w (image :: rest) deleted s))) /\
  ((used <= gc_low cfg)%Q ->
   evict_loop cfg w (image :: rest) deleted s =
   (Ret (image :: rest, deleted), sampled s,
    [EStatvfs (path_to_check cfg)])) /\
  (forall images deleted0 s0 remaining deleted' s' ev,
     evict_loop cfg w images deleted0 s0 =
       (Ret (remaining, deleted'), s', ev) ->
     remaining = [] \/
     exists stat' used',
       (n_statvfs s0 < n_statvfs s')%nat /\
       os_statvfs w (pred (n_statvfs s')) = Ret stat' /\
       used_percent stat' = Ret used' /\
       (used' <= gc_low cfg)%Q).
Proof.
  intros Hkube Hstat Hused. split; [|split; [|split]].
  - destruct (Qlt_le_dec used (gc_high cfg)) as [Hhigh|Hhigh].
    + rewrite (poll_idle _ _ _ _ _ Hstat Hused Hhigh).
      unfold events_of. simpl. split.
      * intros [H|[H|[H|[]]]]; discriminate.
      * intro Hle. exfalso. exact (Qlt_not_le _ _ Hhigh Hle).
    + split; [trivial|]. intros _.
      rewrite (poll_evicting _ _ _ _ _ Hstat Hused Hhigh).
      destruct (eviction_pass_lists cfg w (sampled s) Hkube) as [ev Hev].
      destruct (eviction_pass cfg w (sampled s)) as [[[report|e] s2] ev2];
        unfold events_of, prepend in *; simpl in *; subst ev2;
        right; right; now left.
  - intros Hlow.
    rewrite (evict_loop_unfold _ _ _ _ _ _ _ _ Hkube Hstat Hused Hlow).
    unfold prepend, events_of. cbn [snd].
    apply in_or_app. left. unfold attempt_events.
    apply in_or_app. right. apply in_or_app. right. simpl. tauto.
  - intros Hlow. now apply (evict_loop_stop _ _ _ _ _ _ stat used).
  - intros images deleted0 s0. apply evict_loop_leaves. exact Hkube.
Qed.

(** Usage 90% with thresholds 60 and 80: the poll starts a pass and the
    loop attempts the first candidate. *)
Lemma hysteresis_witness :
  In EListImages
     (events_of (poll cfg_node (steady_world [image_a] (Ret tt))
                   initial_state)) /\
  In (ERemove (id image_a))
     (events_of (evict_loop cfg_node (steady_world [image_a] (Ret tt))
                   [image_a] 0 initial_state)).
Proof.
  destruct (hysteresis cfg_node (steady_world [image_a] (Ret tt))
              initial_state (stat_used 90)
              (float_used (stat_used 90))
              image_a [] 0%nat) as (Henter & Hgo & _ & _).
  - intro k. reflexivity.
  - reflexivity.
  - reflexivity.
  - split.
    + apply Henter. vm_compute. discriminate.
    + apply Hgo. reflexivity.
Defined.

(** *** The node identity does not change the eviction behaviour *)

Lemma erase_kube_app (ev1 ev2 : list Event) :
  erase_kube (ev1 ++ ev2) = erase_kube ev1 ++ erase_kube ev2.
Proof. apply filter_app. Qed.

Lemma erase_kube_clean (ev : list Event) :
  Forall (fun e => is_kube_event e = false) (erase_kube ev).
Proof.
  unfold erase_kube. apply Forall_forall. intros e He.
  apply filter_In in He. now apply negb_true_iff.
Qed.

Ltac sim_done :=
  unfold sim, result_of, state_of, events_of; simpl;
  split; [|split]; trivial;
  try (unfold agree in *; simpl in *; intuition congruence).

Lemma msim_ret {A} (a : A) : msim (ret a) (ret a).
Proof. intros s0 s1 H. sim_done. Qed.

Lemma msim_raise {A} (e : Exn) : msim (@raise A e) (raise e).
Proof. intros s0 s1 H. sim_done. Qed.

Lemma msim_lift {A} (r : Result A) : msim (lift r) (lift r).
Proof. intros s0 s1 H. sim_done. Qed.

Lemma msim_emit (e : Event) :
  is_kube_event e = false -> msim (emit e) (emit e).
Proof.
  intros He s0 s1 H. unfold sim, emit, events_of, erase_kube. simpl.
  rewrite He. sim_done.
Qed.

Lemma msim_time_sleep (seconds : Q) :
  msim (time_sleep seconds) (time_sleep seconds).
Proof.
  unfold time_sleep. destruct (Qltb seconds 0);
    [apply msim_raise|now apply msim_emit].
Qed.

Lemma msim_bind {A B} (m0 m1 : M A) (f0 f1 : A -> M B) :
  msim m0 m1 -> (forall a, msim (f0 a) (f1 a)) ->
  msim (bind m0 f0) (bind m1 f1).
Proof.
  intros Hm Hf s0 s1 Hs. specialize (Hm s0 s1 Hs).
  unfold sim, bind, result_of, state_of, events_of in *.
  destruct (m0 s0) as [[r0 t0] ev0], (m1 s1) as [[r1 t1] ev1].
  simpl in Hm. destruct Hm as (-> & Ht & ->).
  destruct r1 as [a|e]; [|sim_done].
  specialize (Hf a t0 t1 Ht).
  unfold sim, result_of, state_of, events_of in Hf.
  destruct (f0 a t0) as [[r0' t0'] ev0'], (f1 a t1) as [[r1' t1'] ev1'].
  simpl in *. destruct Hf as (-> & Ht' & ->).
  rewrite erase_kube_app. sim_done.
Qed.

Lemma msim_try_except {A} (m0 m1 : M A) (h0 h1 : Exn -> M A) :
  msim m0 m1 -> (forall e, msim (h0 e) (h1 e)) ->
  msim (try_except m0 h0) (try_except m1 h1).
Proof.
  intros Hm Hh s0 s1 Hs. specialize (Hm s0 s1 Hs).
  unfold sim, try_except, result_of, state_of, events_of in *.
  destruct (m0 s0) as [[r0 t0] ev0], (m1 s1) as [[r1 t1] ev1].
  simpl in Hm. destruct Hm as (-> & Ht & ->).
  destruct r1 as [a|e]; [sim_done|].
  specialize (Hh e t0 t1 Ht).
  unfold sim, result_of, state_of, events_of in Hh.
  destruct (h0 e t0) as [[r0' t0'] ev0'], (h1 e t1) as [[r1' t1'] ev1'].
  simpl in *. destruct Hh as (-> & Ht' & ->).
  rewrite erase_kube_app. sim_done.
Qed.

(** A step of the second run alone that returns and leaves only
    orchestrator events. *)
Lemma msim_skip {B} (m1 : M unit) (m0 f1 : M B) :
  (forall s1, exists s1' ev,
      m1 s1 = (Ret tt, s1', ev) /\ agree s1 s1' /\ erase_kube ev = []) ->
  msim m0 f1 ->
  msim m0 (bind m1 (fun _ => f1)).
Proof.
  intros Hm1 Hf s0 s1 Hs.
  destruct (Hm1 s1) as (s1' & ev & Heq & Hag & Hev).
  rewrite (bind_eq _ _ _ _ _ _ Heq).
  assert (Hs' : agree s0 s1').
  { unfold agree in *. intuition congruence. }
  specialize (Hf s0 s1' Hs').
  unfold sim, prepend, result_of, state_of, events_of in *. simpl.
  destruct Hf as (Hr & Ht & He).
  rewrite erase_kube_app, Hev. sim_done.
Qed.

Section NodeIdentity.

Variables (cfg : Config) (x : option string) (w : World).

(** The orchestrator answers whenever the second run talks to it. *)
Hypothesis Hreach : node_name (set_node cfg x) <> None -> kube_reachable w.

Local Abbreviation c0 := (set_node cfg None).
Local Abbreviation c1 := (set_node cfg x).

Ltac sim_step :=
  first
    [ apply msim_ret
    | apply msim_raise
    | apply msim_lift
    | apply msim_emit; reflexivity
    | apply msim_time_sleep
    | apply msim_bind; [|intro]
    | apply msim_try_except; [|intro] ].

Lemma sim_get_used_percent :
  msim (get_used_percent c0 w) (get_used_percent c1 w).
Proof.
  unfold get_used_percent. apply msim_bind; [|intro; apply msim_lift].
  intros s0 s1 Hs. unfold statvfs_call.
  assert (H : n_statvfs s0 = n_statvfs s1) by apply Hs. rewrite H.
  sim_done.
Qed.

Lemma sim_get_docker_images :
  msim (get_docker_images w) (get_docker_images w).
Proof.
  unfold get_docker_images. apply msim_bind; [|intro; apply msim_ret].
  intros s0 s1 Hs. unfold images_list_call.
  assert (H : n_list s0 = n_list s1) by apply Hs. rewrite H.
  sim_done.
Qed.

Lemma sim_images_remove (i : string) :
  msim (images_remove_call w i) (images_remove_call w i).
Proof.
  intros s0 s1 Hs. unfold images_remove_call.
  assert (H : n_remove s0 = n_remove s1) by apply Hs. rewrite H.
  sim_done.
Qed.

Lemma sim_perf_counter : msim (perf_counter_call w) (perf_counter_call w).
Proof.
  intros s0 s1 Hs. unfold perf_counter_call.
  assert (H : n_clock s0 = n_clock s1) by apply Hs. rewrite H.
  sim_done.
Qed.

Lemma sim_patch (n : string) (b : bool) :
  node_name c1 = Some n ->
  msim (ret tt) (bind (logging_info (if b then LCordoning n
                                     else LUncordoning n))
                      (fun _ => patch_node_call w n b)).
Proof.
  intros Hn s0 s1 Hs.
  assert (Hk : kube_ok w) by (apply Hreach; congruence).
  unfold bind, logging_info, emit, patch_node_call, ret. simpl.
  rewrite Hk. destruct b; sim_done.
Qed.

Lemma sim_cordon_if_node : msim (cordon_if_node c0 w) (cordon_if_node c1 w).
Proof.
  unfold cordon_if_node at 1. change (node_name c0) with (@None string).
  unfold cordon_if_node. pose proof sim_patch as Hp.
  destruct (node_name c1) as [n|]; [|apply msim_ret].
  exact (Hp n true eq_refl).
Qed.

Lemma sim_uncordon_if_node :
  msim (uncordon_if_node c0 w) (uncordon_if_node c1 w).
Proof.
  unfold uncordon_if_node at 1. change (node_name c0) with (@None string).
  unfold uncordon_if_node. pose proof sim_patch as Hp.
  destruct (node_name c1) as [n|]; [|apply msim_ret].
  exact (Hp n false eq_refl).
Qed.

Lemma sim_remove_handler (name : string) (e : Exn) :
  msim (remove_handler c0 name e) (remove_handler c1 name e).
Proof.
  unfold remove_handler, logging_info, logging_warning.
  destruct e as [| |sc| | | |]; try apply msim_raise.
  - destruct (status_is sc 409); [repeat sim_step|].
    destruct (status_is sc 404); repeat sim_step.
  - repeat sim_step.
Qed.

Lemma sim_evict_one (image : Image) (deleted : nat) :
  msim (evict_one c0 w image deleted) (evict_one c1 w image deleted).
Proof.
  unfold evict_one, logging_info.
  apply msim_bind; [apply sim_cordon_if_node|intro].
  apply msim_bind; [apply msim_emit; reflexivity|intro].
  apply msim_bind; [|intro; apply msim_ret].
  apply msim_try_except; [|intro; apply sim_remove_handler].
  apply msim_bind; [apply sim_images_remove|intro].
  repeat sim_step.
Qed.

Lemma sim_evict_loop (images : list Image) :
  forall deleted,
    msim (evict_loop c0 w images deleted) (evict_loop c1 w images deleted).
Proof.
  induction images as [|image rest IH]; intro deleted; simpl.
  - apply msim_ret.
  - apply msim_bind; [apply sim_get_used_percent|intro used].
    destruct (Qltb (gc_low cfg) used); [|apply msim_ret].
    apply msim_bind; [apply sim_evict_one|intro]. apply IH.
Qed.

Lemma sim_eviction_pass : msim (eviction_pass c0 w) (eviction_pass c1 w).
Proof.
  unfold eviction_pass, logging_info.
  apply msim_bind; [apply sim_get_docker_images|intro images].
  apply msim_bind; [destruct (py_not_list images); sim_step|intro].
  apply msim_bind; [apply sim_perf_counter|intro start].
  apply msim_bind; [apply sim_cordon_if_node|intro].
  apply msim_bind; [apply sim_evict_loop|intro out].
  apply msim_bind; [apply sim_uncordon_if_node|intro].
  apply msim_bind; [apply sim_perf_counter|intro now].
  repeat sim_step.
Qed.

Lemma sim_poll : msim (poll c0 w) (poll c1 w).
Proof.
  unfold poll, logging_info.
  apply msim_bind; [apply sim_get_used_percent|intro used].
  apply msim_bind; [sim_step|intro].
  apply msim_bind; [|intro; repeat sim_step].
  simpl gc_high. destruct (Qltb used (gc_high cfg)); [apply msim_ret|].
  apply msim_bind; [apply sim_eviction_pass|intro; apply msim_ret].
Qed.

Lemma sim_main_loop (polls : nat) :
  msim (main_loop c0 w polls) (main_loop c1 w polls).
Proof.
  induction polls as [|k IH]; simpl; [apply msim_ret|].
  apply msim_bind; [apply sim_poll|intro r].
  apply msim_bind; [apply IH|intro; apply msim_ret].
Qed.

Lemma sim_startup : msim (startup c0 w) (startup c1 w).
Proof.
  unfold startup at 1. change (node_name c0) with (@None string).
  unfold startup.
  apply msim_bind;
    [|intro; apply msim_bind; [apply msim_lift|intro];
      apply msim_bind; [apply msim_emit; reflexivity|intro];
      apply msim_bind; [apply msim_lift|intro];
      apply msim_bind;
        [apply sim_get_docker_images|intro; apply msim_emit; reflexivity]].
  destruct (node_name c1) as [n|] eqn:Hn; [|apply msim_ret].
  destruct Hreach as ([Hin|Hout] & Hread & _); [congruence| |];
    intros s0 s1 Hs;
    unfold bind, try_except, emit, lift, ret; simpl;
    rewrite ?Hin, ?Hread.
  - sim_done.
  - destruct (load_incluster_config w) as [[]|e]; simpl;
      rewrite ?Hout, ?Hread; sim_done.
Qed.

Lemma sim_main (polls : nat) : msim (main c0 w polls) (main c1 w polls).
Proof.
  unfold main. apply msim_bind; [apply sim_startup|intro].
  apply sim_main_loop.
Qed.

End NodeIdentity.

(** Without a node identity no orchestrator call is issued and no cordon
    line is logged, whatever the world answers. *)
Lemma no_node_no_orchestrator_calls (cfg : Config) (w : World)
    (polls : nat) (s : State) :
  Forall (fun e => is_kube_event e = false)
         (events_of (main (set_node cfg None) w polls s)).
Proof.
  assert (Hs : agree s s) by (now repeat split).
  destruct (sim_main cfg None w (fun H => False_ind _ (H eq_refl)) polls
              s s Hs) as (_ & _ & Hev).
  rewrite Hev. apply erase_kube_clean.
Qed.



(** * Further properties *)

(** ** Usage sampler *)

Lemma float_scale_antitone (a b : Q) :
  (a <= b)%Q ->
  (round64 (100 * round64 (1 - b)) <= round64 (100 * round64 (1 - a)))%Q.
Proof.
  intros Hab. apply round64_mono.
  assert (H : (round64 (1 - b) <= round64 (1 - a))%Q)
    by (apply round64_mono; lra).
  lra.
Qed.



(** ** Image inventory *)

Lemma key_eqb_eq (k1 k2 : bool * Z) : key_eqb k1 k2 = true <-> k1 = k2.
Proof.
  destruct k1 as [b1 z1], k2 as [b2 z2]. unfold key_eqb. simpl.
  rewrite andb_true_iff, Bool.eqb_true_iff, Z.eqb_eq.
  split; [intros [-> ->]; reflexivity|intros H; injection H; auto].
Qed.

Lemma key_ltb_irrefl (k : bool * Z) : key_ltb k k = false.
Proof.
  destruct k as [[|] z]; unfold key_ltb; simpl; apply Z.ltb_irrefl.
Qed.

Lemma insert_desc_with_key (k : bool * Z) (x : Image) (l : list Image) :
  with_key k (insert_desc x l) = with_key k (x :: l).
Proof.
  induction l as [|y l IH]; [reflexivity|].
  simpl insert_desc.
  destruct (key_ltb (image_key x) (image_key y)) eqn:Hlt; [|reflexivity].
  unfold with_key in *. simpl in *. rewrite IH.
  destruct (key_eqb (image_key x) k) eqn:Hx;
    destruct (key_eqb (image_key y) k) eqn:Hy; try reflexivity.
  apply key_eqb_eq in Hx, Hy. rewrite Hx, Hy, key_ltb_irrefl in Hlt.
  discriminate.
Qed.

Lemma sort_desc_with_key (k : bool * Z) (l : list Image) :
  with_key k (sort_desc l) = with_key k l.
Proof.
  induction l as [|x l IH]; [reflexivity|].
  simpl sort_desc. rewrite insert_desc_with_key.
  unfold with_key in *. simpl. now rewrite IH.
Qed.

(** X2: the sort is stable: for every key, the images that carry it come
    out of the inventory listing in the order in which the runtime listed
    them. *)
Theorem get_docker_images_stable (w : World) (s : State)
    (images : list Image) :
  images_list w (n_list s) = Ret images ->
  exists sorted,
    result_of (get_docker_images w s) = Ret sorted /\
    forall k, with_key k sorted = with_key k images.
Proof.
  intros Hl. exists (sort_desc images).
  unfold get_docker_images, bind, images_list_call, ret, result_of.
  rewrite Hl. simpl. split; [reflexivity|].
  intro k. apply sort_desc_with_key.
Qed.

(** Two untagged images of one size around a larger one keep their order. *)
Lemma get_docker_images_stable_witness :
  result_of (get_docker_images
               (steady_world [twin_x; image_a; twin_y] (Ret tt))
               initial_state) = Ret [image_a; twin_x; twin_y] /\
  with_key (image_key twin_x) [image_a; twin_x; twin_y] = [twin_x; twin_y].
Proof.
  destruct (get_docker_images_stable
              (steady_world [twin_x; image_a; twin_y] (Ret tt))
              initial_state [twin_x; image_a; twin_y] eq_refl)
    as (sorted & Hr & Hk).
  split; [reflexivity|].
  assert (Hs : Ret sorted = Ret [image_a; twin_x; twin_y])
    by (rewrite <- Hr; reflexivity).
  injection Hs as ->. exact (Hk (image_key twin_x)).
Defined.

Lemma sort_desc_fixes_sorted (l : list Image) :
  StronglySorted not_below l -> sort_desc l = l.
Proof.
  induction 1 as [|a l Hs IH Ha]; [reflexivity|].
  simpl. rewrite IH. destruct l as [|y l]; [reflexivity|].
  simpl. inversion Ha as [|? ? Hay _]; subst.
  unfold not_below in Hay. now rewrite Hay.
Qed.

(** X3: sorting an inventory that is already in deletion order changes
    nothing, so sorting twice is sorting once. *)
Theorem sort_desc_idempotent (l : list Image) :
  sort_desc (sort_desc l) = sort_desc l.
Proof. apply sort_desc_fixes_sorted, sort_desc_sorted. Qed.

(** ** The deletion loop, iteration by iteration *)

Lemma get_used_percent_shape (cfg : Config) (w : World) (s : State) :
  get_used_percent cfg w s =
  (sample_at w (n_statvfs s), sampled s, [EStatvfs (path_to_check cfg)]).
Proof.
  unfold get_used_percent, bind, statvfs_call, lift, sample_at, sampled.
  destruct (os_statvfs w (n_statvfs s)) as [stat|e]; [|reflexivity].
  now destruct (used_percent stat).
Qed.

Lemma sample_at_ret (w : World) (k : nat) (used : Q) :
  sample_at w k = Ret used ->
  exists stat, os_statvfs w k = Ret stat /\ used_percent stat = Ret used.
Proof.
  unfold sample_at. destruct (os_statvfs w k) as [stat|e]; [|discriminate].
  intros H. now exists stat.
Qed.

Lemma exn_class (e : Exn) :
  e = Conflict \/ e = NotFound \/ e = Timeout \/ fatal e.
Proof.
  unfold fatal, Conflict, NotFound, Timeout.
  destruct e as [| |[z|]| | | |];
    try (right; right; right; repeat split; discriminate);
    [|right; right; now left].
  destruct (Z.eq_dec z 409) as [->|H9]; [now left|].
  destruct (Z.eq_dec z 404) as [->|H4]; [right; now left|].
  right; right; right. repeat split; congruence.
Qed.

(** The four ways an iteration of the deletion loop can go: the sample
    fails; the sample is not above [gc_low]; the removal fails fatally or
    the sleep after it refuses a negative delay; the loop goes on with the
    candidates that follow. *)
Lemma evict_loop_cases (cfg : Config) (w : World) (image : Image)
    (rest : list Image) (deleted : nat) (s : State) :
  kube_ok w ->
  (exists e, sample_at w (n_statvfs s) = Raise e /\
     evict_loop cfg w (image :: rest) deleted s =
     (Raise e, sampled s, [EStatvfs (path_to_check cfg)])) \/
  (exists used, sample_at w (n_statvfs s) = Ret used /\
     (used <= gc_low cfg)%Q /\
     evict_loop cfg w (image :: rest) deleted s =
     (Ret (image :: rest, deleted), sampled s,
      [EStatvfs (path_to_check cfg)])) \/
  (exists e tail, abort_tail cfg image e tail /\
     evict_loop cfg w (image :: rest) deleted s =
     (Raise e, after_attempt cfg s, attempt_events cfg image ++ tail)) \/
  (exists tail deleted1, step_tail cfg image deleted deleted1 tail /\
     evict_loop cfg w (image :: rest) deleted s =
     prepend (attempt_events cfg image ++ tail)
       (evict_loop cfg w rest deleted1 (after_attempt cfg s))).
Proof.
  intros Hkube.
  destruct (sample_at w (n_statvfs s)) as [used|e] eqn:Hsample.
  2:{ left. exists e. split; [reflexivity|]. simpl evict_loop.
      apply bind_raise. now rewrite get_used_percent_shape, Hsample. }
  destruct (sample_at_ret _ _ _ Hsample) as (stat & Hstat & Hused).
  destruct (Qlt_le_dec (gc_low cfg) used) as [Hlow|Hlow].
  2:{ right. left. exists used. split; [reflexivity|]. split; [exact Hlow|].
      now apply (evict_loop_stop _ _ _ _ _ _ stat used). }
  right. right.
  destruct (images_remove w (n_remove s) (id image)) as [u|e] eqn:Hr.
  - destruct (Qlt_le_dec (delay cfg) 0) as [Hneg|Hdelay].
    + left. exists ValueError. eexists. split; [now apply abort_sleep|].
      now apply (evict_loop_sleep_raises _ _ _ _ _ _ stat used Hkube Hstat
                   Hused Hlow u).
    + right. do 2 eexists. split; [now apply tail_success|].
      now apply (evict_loop_success _ _ _ _ _ _ stat used Hkube Hstat Hused
                   Hlow u).
  - destruct (exn_class e) as [-> | [-> | [-> | Hf]]].
    + right. do 2 eexists. split; [apply tail_conflict|].
      now apply (evict_loop_conflict _ _ _ _ _ _ stat used).
    + right. do 2 eexists. split; [apply tail_not_found|].
      now apply (evict_loop_not_found _ _ _ _ _ _ stat used).
    + right. do 2 eexists. split; [apply tail_timeout|].
      now apply (evict_loop_timeout _ _ _ _ _ _ stat used).
    + left. exists e, []. split; [now apply abort_fatal|].
      rewrite app_nil_r.
      now apply (evict_loop_fatal _ _ _ _ _ _ stat used).
Qed.

(** Induction over the iterations of the deletion loop. *)
Lemma evict_loop_trace_ind (cfg : Config) (w : World)
    (P : list Image -> nat ->
         Result (list Image * nat) * State * list Event -> Prop) :
  kube_ok w ->
  (forall d s, P [] d (Ret ([], d), s, [])) ->
  (forall image rest d s e,
      P (image :: rest) d
        (Raise e, sampled s, [EStatvfs (path_to_check cfg)])) ->
  (forall image rest d s,
      P (image :: rest) d
        (Ret (image :: rest, d), sampled s, [EStatvfs (path_to_check cfg)]))
  ->
  (forall image rest d s e tail, abort_tail cfg image e tail ->
      P (image :: rest) d
        (Raise e, after_attempt cfg s, attempt_events cfg image ++ tail)) ->
  (forall image rest d d1 tail o,
      step_tail cfg image d d1 tail -> P rest d1 o ->
      P (image :: rest) d (prepend (attempt_events cfg image ++ tail) o)) ->
  forall images d s, P images d (evict_loop cfg w images d s).
Proof.
  intros Hkube Hnil Hsample Hstop Hfatal Hstep.
  induction images as [|image rest IH]; intros d s; [apply Hnil|].
  destruct (evict_loop_cases cfg w image rest d s Hkube)
    as [(e & _ & ->) | [(used & _ & _ & ->) | [(e & tail & Hf & ->) |
        (tail & d1 & Ht & ->)]]].
  - apply Hsample.
  - apply Hstop.
  - now apply Hfatal.
  - eapply Hstep; [exact Ht|apply IH].
Qed.

Lemma removed_ids_app (ev1 ev2 : list Event) :
  removed_ids (ev1 ++ ev2) = removed_ids ev1 ++ removed_ids ev2.
Proof.
  induction ev1 as [|e ev1 IH]; [reflexivity|].
  destruct e; simpl; now rewrite IH.
Qed.

Lemma sample_calls_app (ev1 ev2 : list Event) :
  sample_calls (ev1 ++ ev2) = (sample_calls ev1 + sample_calls ev2)%nat.
Proof. unfold sample_calls. now rewrite filter_app, length_app. Qed.

Lemma cordon_calls_app (ev1 ev2 : list Event) :
  cordon_calls (ev1 ++ ev2) = (cordon_calls ev1 + cordon_calls ev2)%nat.
Proof. unfold cordon_calls. now rewrite filter_app, length_app. Qed.

Lemma uncordon_calls_app (ev1 ev2 : list Event) :
  uncordon_calls (ev1 ++ ev2) =
  (uncordon_calls ev1 + uncordon_calls ev2)%nat.
Proof. unfold uncordon_calls. now rewrite filter_app, length_app. Qed.

(** What one attempt adds to the counts of a trace. *)
Lemma attempt_events_measures (cfg : Config) (image : Image) :
  removed_ids (attempt_events cfg image) = [id image] /\
  sample_calls (attempt_events cfg image) = 1%nat /\
  cordon_calls (attempt_events cfg image) =
    match node_name cfg with Some _ => 1%nat | None => 0%nat end /\
  uncordon_calls (attempt_events cfg image) = 0%nat.
Proof.
  unfold attempt_events, cordon_events.
  destruct (node_name cfg); repeat split.
Qed.

Lemma step_tail_measures (cfg : Config) (image : Image) (d d1 : nat)
    (tail : list Event) :
  step_tail cfg image d d1 tail ->
  removed_ids tail = [] /\ removal_calls tail = 0%nat /\
  sample_calls tail = 0%nat /\ cordon_calls tail = 0%nat /\
  uncordon_calls tail = 0%nat /\
  d1 = (d + removals_confirmed tail)%nat /\
  (removals_confirmed tail <= 1)%nat.
Proof.
  destruct 1; unfold removal_calls, sample_calls, cordon_calls,
    uncordon_calls, removals_confirmed; simpl; repeat split; lia.
Qed.

Lemma abort_tail_measures (cfg : Config) (image : Image) (e : Exn)
    (tail : list Event) :
  abort_tail cfg image e tail ->
  removed_ids tail = [] /\ removal_calls tail = 0%nat /\
  sample_calls tail = 0%nat /\ cordon_calls tail = 0%nat /\
  uncordon_calls tail = 0%nat /\ (removals_confirmed tail <= 1)%nat.
Proof.
  destruct 1; unfold removal_calls, sample_calls, cordon_calls,
    uncordon_calls, removals_confirmed; simpl; repeat split; lia.
Qed.

Lemma removal_calls_ids (ev : list Event) :
  removal_calls ev = List.length (removed_ids ev).
Proof.
  unfold removal_calls. induction ev as [|e ev IH]; [reflexivity|].
  destruct e; simpl; now rewrite ?IH.
Qed.

Lemma events_of_prepend {A} (ev : list Event)
    (o : Result A * State * list Event) :
  events_of (prepend ev o) = ev ++ events_of o.
Proof. reflexivity. Qed.

Lemma result_of_prepend {A} (ev : list Event)
    (o : Result A * State * list Event) :
  result_of (prepend ev o) = result_of o.
Proof. reflexivity. Qed.

(** The removal calls of a deletion loop take the candidates from the
    front, one call each, and what the loop returns is what it did not
    pop. *)
Lemma evict_loop_order (cfg : Config) (w : World) :
  kube_ok w ->
  forall images deleted s,
  exists popped rest,
    images = popped ++ rest /\
    removed_ids (events_of (evict_loop cfg w images deleted s)) =
      map id popped /\
    forall remaining deleted',
      result_of (evict_loop cfg w images deleted s) =
        Ret (remaining, deleted') ->
      remaining = rest.
Proof.
  intros Hkube.
  apply (evict_loop_trace_ind cfg w
           (fun images _ o =>
              exists popped rest,
                images = popped ++ rest /\
                removed_ids (events_of o) = map id popped /\
                forall remaining deleted',
                  result_of o = Ret (remaining, deleted') ->
                  remaining = rest) Hkube).
  - intros d s. exists [], []. repeat split.
    intros remaining d' H. unfold result_of in H. simpl in H. congruence.
  - intros image rest d s e. exists [], (image :: rest). repeat split.
    intros remaining d' H. discriminate H.
  - intros image rest d s. exists [], (image :: rest). repeat split.
    intros remaining d' H. unfold result_of in H. simpl in H. congruence.
  - intros image rest d s e tail Ha. exists [image], rest.
    split; [reflexivity|]. split.
    + unfold events_of. cbn [snd]. rewrite removed_ids_app.
      rewrite (proj1 (attempt_events_measures cfg image)).
      now rewrite (proj1 (abort_tail_measures _ _ _ _ Ha)).
    + intros remaining d' H. discriminate H.
  - intros image rest d d1 tail o Ht (popped & rest' & -> & Hids & Hret).
    exists (image :: popped), rest'. split; [reflexivity|]. split.
    + rewrite events_of_prepend, !removed_ids_app, Hids.
      rewrite (proj1 (attempt_events_measures cfg image)).
      now rewrite (proj1 (step_tail_measures _ _ _ _ _ Ht)).
    + intros remaining d'. rewrite result_of_prepend. apply Hret.
Qed.

(** The counts of a deletion loop's trace: one cordon per removal call when
    a node is configured, no uncordon, no more confirmed removals than
    calls, and one sample per call plus the one that stopped the loop. *)
Lemma evict_loop_counts (cfg : Config) (w : World) :
  kube_ok w ->
  forall images deleted s,
    let o := evict_loop cfg w images deleted s in
    cordon_calls (events_of o) =
      match node_name cfg with
      | Some _ => removal_calls (events_of o)
      | None => 0%nat
      end /\
    uncordon_calls (events_of o) = 0%nat /\
    (removals_confirmed (events_of o) <= removal_calls (events_of o))%nat /\
    (sample_calls (events_of o) <= removal_calls (events_of o) + 1)%nat /\
    forall remaining deleted',
      result_of o = Ret (remaining, deleted') ->
      sample_calls (events_of o) =
        (removal_calls (events_of o) +
         match remaining with [] => 0 | _ => 1 end)%nat.
Proof.
  intros Hkube.
  apply (evict_loop_trace_ind cfg w
           (fun images _ o =>
              cordon_calls (events_of o) =
                match node_name cfg with
                | Some _ => removal_calls (events_of o)
                | None => 0%nat
                end /\
              uncordon_calls (events_of o) = 0%nat /\
              (removals_confirmed (events_of o) <=
               removal_calls (events_of o))%nat /\
              (sample_calls (events_of o) <=
               removal_calls (events_of o) + 1)%nat /\
              forall remaining deleted',
                result_of o = Ret (remaining, deleted') ->
                sample_calls (events_of o) =
                  (removal_calls (events_of o) +
                   match remaining with [] => 0 | _ => 1 end)%nat) Hkube).
  - intros d s. unfold events_of, result_of. simpl.
    refine (conj _ (conj _ (conj _ (conj _ _))));
      try (now destruct (node_name cfg)); try (cbv; lia).
    all: intros remaining d' H; injection H as <- _; reflexivity.
  - intros image rest d s e. unfold events_of, result_of. simpl.
    refine (conj _ (conj _ (conj _ (conj _ _))));
      try (now destruct (node_name cfg)); try (cbv; lia).
    all: intros remaining d' H; discriminate H.
  - intros image rest d s. unfold events_of, result_of. simpl.
    refine (conj _ (conj _ (conj _ (conj _ _))));
      try (now destruct (node_name cfg)); try (cbv; lia).
    all: intros remaining d' H; injection H as <- _; reflexivity.
  - intros image rest d s e tail Ha. unfold events_of, result_of.
    cbn [fst snd].
    destruct (attempt_events_measures cfg image) as (_ & Hs & Hc & Hu).
    destruct (attempt_events_counts cfg image) as (Hr & Hd).
    destruct (abort_tail_measures _ _ _ _ Ha)
      as (_ & Htr & Hts & Htc & Htu & Htd).
    rewrite !cordon_calls_app, !uncordon_calls_app, !removal_calls_app,
      !removals_confirmed_app, !sample_calls_app.
    rewrite Hs, Hc, Hu, Hr, Hd, Htr, Hts, Htc, Htu.
    refine (conj _ (conj _ (conj _ (conj _ _))));
      try (destruct (node_name cfg); lia); try lia.
    all: intros remaining d' H; discriminate H.
  - intros image rest d d1 tail o Ht (Hc & Hu & Hd & Hs & Hret).
    rewrite events_of_prepend, result_of_prepend.
    destruct (attempt_events_measures cfg image) as (_ & Has & Hac & Hau).
    destruct (attempt_events_counts cfg image) as (Har & Had).
    destruct (step_tail_measures _ _ _ _ _ Ht)
      as (_ & Htr & Hts & Htc & Htu & _ & Htd).
    rewrite !cordon_calls_app, !uncordon_calls_app, !removal_calls_app,
      !removals_confirmed_app, !sample_calls_app.
    rewrite Has, Hac, Hau, Har, Had, Htr, Hts, Htc, Htu, Hc, Hu.
    refine (conj _ (conj _ (conj _ (conj _ _)))); try lia.
    + destruct (node_name cfg); lia.
    + intros remaining d' H. rewrite (Hret _ _ H). lia.
Qed.

(** ** Whole passes *)

(** The trace and the result of a pass in terms of its deletion loop. *)
Lemma eviction_pass_trace (cfg : Config) (w : World) (s : State)
    (listed : list Image) :
  kube_ok w ->
  images_list w (n_list s) = Ret listed ->
  let loop := evict_loop cfg w (sort_desc listed) 0 (pass_loop_state cfg s) in
  events_of (eviction_pass cfg w s) =
    pass_prologue cfg (sort_desc listed) ++ events_of loop ++
    match result_of loop with
    | Ret out =>
        pass_epilogue cfg w s (state_of loop)
          (List.length (sort_desc listed)) (fst out)
    | Raise _ => []
    end /\
  result_of (eviction_pass cfg w s) =
    match result_of loop with
    | Ret out =>
        Ret (mkReport (List.length (sort_desc listed))
               (Z.of_nat (List.length (sort_desc listed)) -
                Z.of_nat (List.length (fst out)))
               (snd out))
    | Raise e => Raise e
    end.
Proof.
  intros Hkube Hlist loop.
  rewrite (eviction_pass_unfold cfg w s listed Hkube Hlist).
  fold loop. destruct loop as [[[out|e] s2] ev2];
    unfold prepend, events_of, result_of, state_of; simpl;
    now rewrite ?app_nil_r.
Qed.

Lemma pass_prologue_measures (cfg : Config) (images : list Image) :
  removed_ids (pass_prologue cfg images) = [] /\
  removal_calls (pass_prologue cfg images) = 0%nat /\
  removals_confirmed (pass_prologue cfg images) = 0%nat /\
  sample_calls (pass_prologue cfg images) = 0%nat /\
  cordon_calls (pass_prologue cfg images) =
    match node_name cfg with Some _ => 1%nat | None => 0%nat end /\
  uncordon_calls (pass_prologue cfg images) = 0%nat.
Proof.
  unfold pass_prologue, cordon_events.
  destruct (node_name cfg), (py_not_list images); repeat split.
Qed.

Lemma pass_epilogue_measures (cfg : Config) (w : World) (s s2 : State)
    (before : nat) (remaining : list Image) :
  removed_ids (pass_epilogue cfg w s s2 before remaining) = [] /\
  removal_calls (pass_epilogue cfg w s s2 before remaining) = 0%nat /\
  removals_confirmed (pass_epilogue cfg w s s2 before remaining) = 0%nat /\
  sample_calls (pass_epilogue cfg w s s2 before remaining) = 0%nat /\
  cordon_calls (pass_epilogue cfg w s s2 before remaining) = 0%nat /\
  uncordon_calls (pass_epilogue cfg w s s2 before remaining) =
    match node_name cfg with Some _ => 1%nat | None => 0%nat end.
Proof.
  unfold pass_epilogue, uncordon_events.
  destruct (node_name cfg); repeat split.
Qed.

(** X4: a pass issues its removal calls in deletion-priority order, for the
    candidates at the front of the sorted inventory and once each; the
    count of its summary line is the number of these candidates; with
    distinct image ids no id is passed to the runtime twice. *)
Theorem pass_removals_in_priority_order (cfg : Config) (w : World)
    (s : State) (listed : list Image) :
  kube_ok w ->
  images_list w (n_list s) = Ret listed ->
  exists popped rest,
    sort_desc listed = popped ++ rest /\
    removed_ids (events_of (eviction_pass cfg w s)) = map id popped /\
    (forall report,
        result_of (eviction_pass cfg w s) = Ret report ->
        images_deleted report = Z.of_nat (List.length popped)) /\
    (NoDup (map id listed) ->
     NoDup (removed_ids (events_of (eviction_pass cfg w s)))).
Proof.
  intros Hkube Hlist.
  destruct (eviction_pass_trace cfg w s listed Hkube Hlist) as [Hev Hres].
  destruct (evict_loop_order cfg w Hkube (sort_desc listed) 0%nat
              (pass_loop_state cfg s)) as (popped & rest & Hsplit & Hids & Hret).
  exists popped, rest.
  assert (Hpass : removed_ids (events_of (eviction_pass cfg w s)) =
                  map id popped).
  { rewrite Hev, !removed_ids_app, Hids.
    rewrite (proj1 (pass_prologue_measures cfg (sort_desc listed))).
    destruct (result_of _) as [out|e]; simpl.
    - rewrite (proj1 (pass_epilogue_measures cfg w s _ _ _)).
      now rewrite app_nil_r.
    - now rewrite app_nil_r. }
  split; [exact Hsplit|]. split; [exact Hpass|]. split.
  - intros report Hrep. rewrite Hres in Hrep.
    destruct (result_of (evict_loop cfg w (sort_desc listed) 0
                           (pass_loop_state cfg s)))
      as [[remaining d']|e] eqn:Hloop; [|discriminate].
    injection Hrep as <-. simpl.
    rewrite (Hret remaining d' eq_refl), Hsplit, length_app. lia.
  - intros Hnd. rewrite Hpass.
    assert (Hnd' : NoDup (map id (popped ++ rest))).
    { rewrite <- Hsplit.
      eapply Permutation_NoDup; [|exact Hnd].
      apply Permutation_map, sort_desc_perm. }
    rewrite map_app in Hnd'. now apply NoDup_app_remove_r in Hnd'.
Qed.

Lemma pass_removals_in_priority_order_witness :
  NoDup (removed_ids
           (events_of (eviction_pass cfg_node
                         (steady_world [image_b; image_a] (Raise Conflict))
                         initial_state))).
Proof.
  destruct (pass_removals_in_priority_order cfg_node
              (steady_world [image_b; image_a] (Raise Conflict))
              initial_state [image_b; image_a])
    as (popped & rest & _ & _ & _ & Hnd).
  - intro k. reflexivity.
  - reflexivity.
  - apply Hnd. simpl. repeat constructor; simpl; intuition discriminate.
Defined.

(** The value of [deleted] a loop returns: its initial value plus the
    removals logged as done. *)
Lemma evict_loop_deleted (cfg : Config) (w : World) :
  kube_ok w ->
  forall images deleted s remaining deleted',
    result_of (evict_loop cfg w images deleted s) =
      Ret (remaining, deleted') ->
    deleted' =
      (deleted +
       removals_confirmed (events_of (evict_loop cfg w images deleted s)))%nat.
Proof.
  intros Hkube.
  apply (evict_loop_trace_ind cfg w
           (fun images d o =>
              forall remaining d',
                result_of o = Ret (remaining, d') ->
                d' = (d + removals_confirmed (events_of o))%nat) Hkube).
  - intros d s remaining d' H. injection H as _ <-.
    unfold removals_confirmed, events_of. simpl. lia.
  - intros image rest d s e remaining d' H. discriminate H.
  - intros image rest d s remaining d' H. injection H as _ <-.
    unfold removals_confirmed, events_of. simpl. lia.
  - intros image rest d s e tail _ remaining d' H. discriminate H.
  - intros image rest d d1 tail o Ht IH remaining d'.
    rewrite events_of_prepend, result_of_prepend. intros H.
    rewrite (IH _ _ H), !removals_confirmed_app.
    destruct (attempt_events_counts cfg image) as (_ & ->).
    destruct (step_tail_measures _ _ _ _ _ Ht) as (_ & _ & _ & _ & _ & -> & _).
    lia.
Qed.

(** X5: the report of a pass that returns: [images_before] is the size of
    the listing, the count of the summary line is the number of removal
    calls the pass made, [deleted] is the number of removals logged as
    done, and [deleted] is at most the reported count, which is at most the
    size of the listing. *)
Theorem pass_report_bounds (cfg : Config) (w : World) (s : State)
    (listed : list Image) (report : PassReport) :
  kube_ok w ->
  images_list w (n_list s) = Ret listed ->
  result_of (eviction_pass cfg w s) = Ret report ->
  images_before report = List.length listed /\
  images_deleted report =
    Z.of_nat (removal_calls (events_of (eviction_pass cfg w s))) /\
  deleted_counter report =
    removals_confirmed (events_of (eviction_pass cfg w s)) /\
  (Z.of_nat (deleted_counter report) <= images_deleted report
   <= Z.of_nat (images_before report))%Z.
Proof.
  intros Hkube Hlist Hrep.
  destruct (eviction_pass_trace cfg w s listed Hkube Hlist) as [Hev Hres].
  destruct (evict_loop_order cfg w Hkube (sort_desc listed) 0%nat
              (pass_loop_state cfg s)) as (popped & rest & Hsplit & Hids & Hret).
  destruct (evict_loop_counts cfg w Hkube (sort_desc listed) 0%nat
              (pass_loop_state cfg s)) as (_ & _ & Hconf & _ & _).
  pose proof (evict_loop_deleted cfg w Hkube (sort_desc listed) 0%nat
                (pass_loop_state cfg s)) as Hdel.
  rewrite Hres in Hrep.
  destruct (result_of (evict_loop cfg w (sort_desc listed) 0
                         (pass_loop_state cfg s)))
    as [[remaining d']|e] eqn:Hloop; [|discriminate].
  injection Hrep as <-. cbn [images_before images_deleted deleted_counter].
  specialize (Hret _ _ eq_refl). specialize (Hdel _ _ eq_refl). subst remaining.
  destruct (pass_prologue_measures cfg (sort_desc listed))
    as (_ & Hpr & Hpc & _).
  destruct (pass_epilogue_measures cfg w s
              (state_of (evict_loop cfg w (sort_desc listed) 0
                           (pass_loop_state cfg s)))
              (List.length (sort_desc listed)) rest)
    as (_ & Her & Hec & _).
  rewrite Hev, !removal_calls_app, !removals_confirmed_app.
  cbn [fst]. rewrite Hpr, Hpc, Her, Hec.
  assert (Hcalls : removal_calls
                     (events_of (evict_loop cfg w (sort_desc listed) 0
                                   (pass_loop_state cfg s))) =
                   List.length popped)
    by now rewrite removal_calls_ids, Hids, length_map.
  rewrite Hcalls in *.
  set (confirmed := removals_confirmed _) in *.
  assert (Hlen : List.length (sort_desc listed) = List.length listed).
  { symmetry. apply Permutation_length, sort_desc_perm. }
  rewrite <- Hlen. clearbody confirmed. rewrite Hsplit, length_app.
  repeat split; lia.
Qed.

Lemma pass_report_bounds_witness :
  let o := eviction_pass cfg_node
             (steady_world [image_a; image_b] (Raise Timeout))
             initial_state in
  removal_calls (events_of o) = 2%nat /\
  removals_confirmed (events_of o) = 0%nat.
Proof.
  intro o.
  destruct (pass_report_bounds cfg_node
              (steady_world [image_a; image_b] (Raise Timeout))
              initial_state [image_a; image_b] (mkReport 2 2 0))
    as (_ & Hcalls & Hconf & _).
  - intro k. reflexivity.
  - reflexivity.
  - reflexivity.
  - split.
    + apply Nat2Z.inj. symmetry. exact Hcalls.
    + symmetry. exact Hconf.
Defined.

(** X6: with a node configured, a pass cordons the node once at its start
    and once more before every removal call; it uncordons the node exactly
    once when it returns, and not at all when it ends with an exception. *)
Theorem pass_cordon_discipline (cfg : Config) (w : World) (s : State)
    (listed : list Image) (n : string) :
  kube_ok w ->
  images_list w (n_list s) = Ret listed ->
  node_name cfg = Some n ->
  let o := eviction_pass cfg w s in
  cordon_calls (events_of o) = S (removal_calls (events_of o)) /\
  (forall report, result_of o = Ret report ->
                  uncordon_calls (events_of o) = 1%nat) /\
  (forall e, result_of o = Raise e -> uncordon_calls (events_of o) = 0%nat).
Proof.
  intros Hkube Hlist Hnode o. subst o.
  destruct (eviction_pass_trace cfg w s listed Hkube Hlist) as [Hev Hres].
  destruct (evict_loop_counts cfg w Hkube (sort_desc listed) 0%nat
              (pass_loop_state cfg s)) as (Hc & Hu & _).
  destruct (pass_prologue_measures cfg (sort_desc listed))
    as (_ & Hpr & _ & _ & Hpc & Hpu).
  rewrite Hnode in Hc, Hpc.
  rewrite Hev, Hres.
  rewrite !cordon_calls_app, !uncordon_calls_app, !removal_calls_app.
  rewrite Hpr, Hpc, Hpu, Hc, Hu.
  destruct (result_of (evict_loop cfg w (sort_desc listed) 0
                         (pass_loop_state cfg s))) as [out|e].
  - destruct (pass_epilogue_measures cfg w s
                (state_of (evict_loop cfg w (sort_desc listed) 0
                             (pass_loop_state cfg s)))
                (List.length (sort_desc listed)) (fst out))
      as (_ & Her & _ & _ & Hec & Heu).
    rewrite Hnode in Heu. rewrite Her, Hec, Heu.
    split; [lia|]. split; [reflexivity|discriminate].
  - split; [cbn; lia|]. split; [discriminate|reflexivity].
Qed.

Lemma pass_cordon_discipline_witness :
  let o := eviction_pass cfg_node
             (steady_world [image_a; image_b] (Ret tt)) initial_state in
  cordon_calls (events_of o) = 3%nat /\ uncordon_calls (events_of o) = 1%nat.
Proof.
  intro o.
  destruct (pass_cordon_discipline cfg_node
              (steady_world [image_a; image_b] (Ret tt)) initial_state
              [image_a; image_b] "node-1")
    as (Hc & Hu & _).
  - intro k. reflexivity.
  - reflexivity.
  - reflexivity.
  - split; [exact Hc|]. apply (Hu (mkReport 2 2 2)).
    vm_compute. reflexivity.
Defined.

(** X7: a deletion loop that returns has sampled the usage once before
    every removal call and once more if it stopped with candidates left; it
    takes no sample once the candidates are exhausted. *)
Theorem loop_samples_before_each_removal (cfg : Config) (w : World)
    (images : list Image) (deleted : nat) (s : State)
    (remaining : list Image) (deleted' : nat) :
  kube_ok w ->
  result_of (evict_loop cfg w images deleted s) = Ret (remaining, deleted') ->
  sample_calls (events_of (evict_loop cfg w images deleted s)) =
    (removal_calls (events_of (evict_loop cfg w images deleted s)) +
     match remaining with [] => 0 | _ => 1 end)%nat.
Proof.
  intros Hkube Hret.
  destruct (evict_loop_counts cfg w Hkube images deleted s)
    as (_ & _ & _ & _ & H).
  now apply (H remaining deleted').
Qed.

Lemma loop_samples_before_each_removal_witness :
  sample_calls
    (events_of (evict_loop cfg_node (steady_world [image_a] (Ret tt))
                  [image_a; image_b] 0 initial_state)) = 2%nat.
Proof.
  apply (loop_samples_before_each_removal cfg_node
           (steady_world [image_a] (Ret tt)) [image_a; image_b] 0%nat
           initial_state [] 2%nat).
  - intro k. reflexivity.
  - vm_compute. reflexivity.
Defined.



(** ** Polls *)

Lemma main_loop_S (cfg : Config) (w : World) (k : nat) :
  main_loop cfg w (S k) =
  bind (poll cfg w)
       (fun r => bind (main_loop cfg w k) (fun rs => ret (r :: rs))).
Proof. reflexivity. Qed.

(** X9: a poll whose usage sample fails, because the stat call fails or
    because the filesystem reports zero inodes or zero blocks, ends the
    process with that exception at once: nothing is logged, listed or
    removed, no sleep follows, and no later poll runs. *)
Theorem poll_sample_failure (cfg : Config) (w : World) (s : State)
    (e : Exn) (polls : nat) :
  sample_at w (n_statvfs s) = Raise e ->
  poll cfg w s = (Raise e, sampled s, [EStatvfs (path_to_check cfg)]) /\
  main_loop cfg w (S polls) s =
    (Raise e, sampled s, [EStatvfs (path_to_check cfg)]).
Proof.
  intros Hsample.
  assert (Hpoll : poll cfg w s =
                  (Raise e, sampled s, [EStatvfs (path_to_check cfg)])).
  { unfold poll. apply bind_raise.
    now rewrite get_used_percent_shape, Hsample. }
  split; [exact Hpoll|].
  rewrite main_loop_S. now apply bind_raise.
Qed.

Lemma poll_sample_failure_witness :
  main_loop cfg_node no_inodes_world 5 initial_state =
  (Raise ZeroDivisionError, sampled initial_state,
   [EStatvfs "/var/lib/docker"]).
Proof.
  exact (proj2 (poll_sample_failure cfg_node no_inodes_world initial_state
                  ZeroDivisionError 4 eq_refl)).
Defined.

Lemma sampled_times_S (polls : nat) (s : State) :
  sampled_times polls (sampled s) = sampled_times (S polls) s.
Proof.
  unfold sampled_times, sampled. simpl. f_equal. lia.
Qed.

(** X10: as long as every sample is below [gc_high], the engine only
    samples, logs the usage and sleeps: each poll reports no pass, and no
    listing, removal or orchestrator call is made. *)
Theorem idle_polling (cfg : Config) (w : World) (polls : nat) (s : State) :
  (forall k, exists used,
      sample_at w k = Ret used /\ (used < gc_high cfg)%Q) ->
  let o := main_loop cfg w polls s in
  result_of o = Ret (repeat None polls) /\
  state_of o = sampled_times polls s /\
  Forall (fun e => is_idle_event e = true) (events_of o) /\
  List.length (events_of o) = (3 * polls)%nat.
Proof.
  intros Hidle. revert s.
  induction polls as [|k IH]; intros s.
  - simpl. unfold sampled_times. destruct s. repeat split. constructor.
  - destruct (Hidle (n_statvfs s)) as (used & Hsample & Hhigh).
    destruct (sample_at_ret _ _ _ Hsample) as (stat & Hstat & Hused).
    cbv zeta. rewrite main_loop_S.
    rewrite (bind_eq _ _ _ _ _ _ (poll_idle _ _ _ _ _ Hstat Hused Hhigh)).
    destruct (IH (sampled s)) as (Hr & Hs & Hev & Hlen).
    destruct (main_loop cfg w k (sampled s)) as [[r s'] ev] eqn:Hloop.
    unfold result_of, state_of, events_of in Hr, Hs, Hev, Hlen.
    simpl in Hr, Hs, Hev, Hlen. subst r s'.
    rewrite (bind_eq _ _ _ _ _ _ Hloop).
    unfold ret, prepend, result_of, state_of, events_of. simpl.
    rewrite app_nil_r, sampled_times_S.
    repeat split.
    + repeat constructor. exact Hev.
    + rewrite Hlen. lia.
Qed.

Lemma idle_polling_witness :
  result_of (main_loop cfg_node idle_world 3 initial_state) =
    Ret [None; None; None] /\
  state_of (main_loop cfg_node idle_world 3 initial_state) =
    sampled_times 3 initial_state.
Proof.
  destruct (idle_polling cfg_node idle_world 3 initial_state)
    as (Hr & Hs & _).
  - intro k. eexists. split; [reflexivity|]. reflexivity.
  - split; [exact Hr|exact Hs].
Defined.

Lemma bind_ret_inv {A B} (m : M A) (f : A -> M B) (s : State) (b : B) :
  result_of (bind m f s) = Ret b ->
  exists a,
    result_of (m s) = Ret a /\
    result_of (f a (state_of (m s))) = Ret b /\
    events_of (bind m f s) =
      events_of (m s) ++ events_of (f a (state_of (m s))).
Proof.
  unfold bind, result_of, state_of, events_of.
  destruct (m s) as [[[a|e] s1] ev1]; simpl; [|discriminate].
  destruct (f a s1) as [[r s2] ev2] eqn:Hf. simpl. intros ->.
  exists a. rewrite Hf. now repeat split.
Qed.

(** X11: every poll that returns, with or without a pass, ends with the
    fixed sleep of 60 seconds. *)
Theorem poll_returns_after_sleep (cfg : Config) (w : World) (s : State)
    (report : option PassReport) :
  result_of (poll cfg w s) = Ret report ->
  exists ev, events_of (poll cfg w s) = ev ++ [ESleep 60].
Proof.
  unfold poll. intros H.
  destruct (bind_ret_inv _ _ _ _ H) as (used & _ & H1 & ->).
  destruct (bind_ret_inv _ _ _ _ H1) as (u & _ & H2 & ->).
  destruct (bind_ret_inv _ _ _ _ H2) as (r & _ & _ & ->).
  eexists. rewrite !app_assoc. reflexivity.
Qed.

Lemma poll_returns_after_sleep_witness :
  exists ev,
    events_of (poll cfg_node (steady_world [image_a] (Raise NotFound))
                 initial_state) = ev ++ [ESleep 60].
Proof.
  exact (poll_returns_after_sleep cfg_node
           (steady_world [image_a] (Raise NotFound)) initial_state
           (Some (mkReport 1 1 0)) eq_refl).
Defined.

(** ** Startup *)

Lemma load_config_eq (w : World) (s : State) :
  try_except
    (bind (emit ELoadInclusterConfig)
          (fun _ => lift (load_incluster_config w)))
    (fun _ => bind (emit ELoadKubeConfig)
                   (fun _ => lift (load_kube_config w))) s =
  match load_incluster_config w with
  | Ret u => (Ret u, s, [ELoadInclusterConfig])
  | Raise _ =>
      (load_kube_config w, s, [ELoadInclusterConfig; ELoadKubeConfig])
  end.
Proof.
  unfold try_except, bind, emit, lift. simpl.
  destruct (load_incluster_config w) as [u|e]; [reflexivity|].
  now destruct (load_kube_config w).
Qed.

(** X12: with a node configured whose read fails at startup, the process
    ends with that exception before it lists an image or takes a sample:
    whatever the number of polls asked for, its trace holds orchestrator
    calls only and ends with the node read. *)
Theorem startup_unreachable_node (cfg : Config) (w : World) (s : State)
    (n : string) (e : Exn) (polls : nat) :
  node_name cfg = Some n ->
  load_incluster_config w = Ret tt \/ load_kube_config w = Ret tt ->
  read_node w = Raise e ->
  result_of (main cfg w polls s) = Raise e /\
  state_of (main cfg w polls s) = s /\
  (exists pre, events_of (main cfg w polls s) = pre ++ [EReadNode n]) /\
  Forall (fun ev => is_kube_event ev = true) (events_of (main cfg w polls s)).
Proof.
  intros Hnode Hcfg Hread.
  assert (Hstart : exists pre,
             Forall (fun ev => is_kube_event ev = true) pre /\
             startup cfg w s = (Raise e, s, pre ++ [EReadNode n])).
  { unfold startup. rewrite Hnode.
    assert (Hload : exists pre,
               Forall (fun ev => is_kube_event ev = true) pre /\
               try_except
                 (bind (emit ELoadInclusterConfig)
                       (fun _ => lift (load_incluster_config w)))
                 (fun _ => bind (emit ELoadKubeConfig)
                                (fun _ => lift (load_kube_config w))) s =
               (Ret tt, s, pre)).
    { rewrite load_config_eq.
      destruct (load_incluster_config w) as [[]|e1].
      - exists [ELoadInclusterConfig]. split; [repeat constructor|reflexivity].
      - destruct Hcfg as [Hcfg|Hcfg]; [discriminate|]. rewrite Hcfg.
        exists [ELoadInclusterConfig; ELoadKubeConfig].
        split; [repeat constructor|reflexivity]. }
    destruct Hload as (pre & Hpre & Hload).
    exists pre. split; [exact Hpre|].
    apply bind_raise.
    rewrite (bind_eq _ _ _ _ _ _ Hload).
    unfold bind, emit, lift, prepend, result_of, state_of, events_of.
    simpl. now rewrite Hread. }
  destruct Hstart as (pre & Hpre & Hstart).
  unfold main. rewrite (bind_raise _ _ _ _ _ _ Hstart).
  unfold result_of, state_of, events_of. simpl.
  split; [reflexivity|]. split; [reflexivity|]. split; [now exists pre|].
  apply Forall_app. split; [exact Hpre|repeat constructor].
Qed.

Lemma startup_unreachable_node_witness :
  result_of (main cfg_node
               (outside_cluster_world (Raise ApiException) (Ret tt)) 7
               initial_state) = Raise ApiException.
Proof.
  refine (proj1 (startup_unreachable_node cfg_node
            (outside_cluster_world (Raise ApiException) (Ret tt))
            initial_state "node-1" ApiException 7 eq_refl _ eq_refl)).
  now right.
Defined.



(** ** Passes that cannot start *)

(** X14: a pass whose image listing fails, or whose first cordon is refused
    by the orchestrator, ends with that exception before the deletion loop:
    no sample is taken, no removal call or uncordon is issued, and the
    schedulability of the node is as it was. *)
Theorem pass_setup_failure (cfg : Config) (w : World) (s : State)
    (e : Exn) :
  images_list w (n_list s) = Raise e \/
  (exists listed n,
      images_list w (n_list s) = Ret listed /\
      node_name cfg = Some n /\
      patch_node w (n_patch s) = Raise e) ->
  let o := eviction_pass cfg w s in
  result_of o = Raise e /\
  removal_calls (events_of o) = 0%nat /\
  sample_calls (events_of o) = 0%nat /\
  uncordon_calls (events_of o) = 0%nat /\
  unschedulable (state_of o) = unschedulable s.
Proof.
  intros [Hlist|(listed & n & Hlist & Hnode & Hpatch)] o; subst o.
  - assert (H : eviction_pass cfg w s =
                (Raise e,
                 mkState (n_statvfs s) (S (n_list s)) (n_remove s)
                         (n_patch s) (n_clock s) (unschedulable s),
                 [EListImages])).
    { unfold eviction_pass. apply bind_raise.
      unfold get_docker_images. apply bind_raise.
      unfold images_list_call. now rewrite Hlist. }
    rewrite H. repeat split.
  - assert (H : eviction_pass cfg w s =
                (Raise e,
                 mkState (n_statvfs s) (S (n_list s)) (n_remove s)
                         (S (n_patch s)) (S (n_clock s)) (unschedulable s),
                 [EListImages;
                  ELog (if py_not_list (sort_desc listed) then LNoImages
                        else LAvailable (List.length (sort_desc listed)));
                  EPerfCounter; ELog (LCordoning n); EPatchNode n true])).
    { unfold eviction_pass.
      erewrite bind_eq.
      2:{ unfold get_docker_images, bind, images_list_call, ret.
          rewrite Hlist. reflexivity. }
      erewrite bind_eq.
      2:{ instantiate (1 := [ELog (if py_not_list (sort_desc listed)
                                   then LNoImages
                                   else LAvailable
                                          (List.length (sort_desc listed)))]).
          now destruct (py_not_list (sort_desc listed)). }
      erewrite bind_eq; [|reflexivity].
      erewrite bind_raise.
      2:{ unfold cordon_if_node. rewrite Hnode.
          unfold bind, logging_info, emit, cordon, patch_node_call. simpl.
          rewrite Hpatch. reflexivity. }
      reflexivity. }
    rewrite H.
    unfold result_of, state_of, events_of, removal_calls, sample_calls,
      uncordon_calls. simpl.
    now destruct (py_not_list (sort_desc listed)).
Qed.

Lemma pass_setup_failure_witness :
  let o := eviction_pass cfg_node
             (outside_cluster_world (Ret tt) (Raise ApiException))
             initial_state in
  result_of o = Raise ApiException /\
  removal_calls (events_of o) = 0%nat.
Proof.
  intro o.
  destruct (pass_setup_failure cfg_node
              (outside_cluster_world (Ret tt) (Raise ApiException))
              initial_state ApiException) as (Hr & Hc & _).
  - right. exists [image_a], "node-1"%string. now repeat split.
  - split; [exact Hr|exact Hc].
Defined.
